(** * Portfolio site: the contact intake function and the galaxy background

    A shallow embedding of
    - [server/simple-lambda.js] (the deployed request handler),
    - the handler listed in the deployment guide (a near duplicate of it),
    - [client/src/components/galaxy-background.tsx] (the particle animation),
    - [client/src/components/contact-section.tsx] (the contact form),
    and the properties the specification states about them, followed by
    further properties of the same code. *)

From Stdlib Require Import ZArith QArith List String Ascii Bool Lia Reals Lra.
From Stdlib Require Floats.PrimFloat.
Import ListNotations.

Set Warnings "-register-all".
Open Scope string_scope.
Open Scope Z_scope.

(* ================================================================== *)
(** * Dates: [Date.prototype.toISOString] and [Date.parse]             *)
(* ================================================================== *)

Module IsoDate.

Definition msPerDay : Z := 86400000.

(** Day number and time within the day of a time value (ECMA-262, Day and
    TimeWithinDay); [Z.div] and [Z.modulo] round towards minus infinity, as
    the standard's floor and modulo do. *)
Definition Day (t : Z) : Z := t / msPerDay.
Definition TimeWithinDay (t : Z) : Z := t mod msPerDay.

(** Year, month (1..12) and day of the month (1..31) of a day number counted
    from 1970-01-01, in the proleptic Gregorian calendar. *)
Definition civil_from_days (days : Z) : Z * Z * Z :=
  let z := days + 719468 in
  let era := z / 146097 in
  let doe := z mod 146097 in
  let yoe := (doe - doe / 1460 + doe / 36524 - doe / 146096) / 365 in
  let doy := doe - (365 * yoe + yoe / 4 - yoe / 100) in
  let mp := (5 * doy + 2) / 153 in
  let d := doy - (153 * mp + 2) / 5 + 1 in
  let m := if mp <? 10 then mp + 3 else mp - 9 in
  let y := yoe + era * 400 in
  (if m <=? 2 then y + 1 else y, m, d).

(** The inverse: the day number of a calendar date. *)
Definition days_from_civil (y m d : Z) : Z :=
  let y' := if m <=? 2 then y - 1 else y in
  let era := y' / 400 in
  let yoe := y' mod 400 in
  let mp := if m <=? 2 then m + 9 else m - 3 in
  let doy := (153 * mp + 2) / 5 + d - 1 in
  let doe := yoe * 365 + yoe / 4 - yoe / 100 + doy in
  era * 146097 + doe - 719468.

Definition is_leap (y : Z) : bool :=
  ((y mod 4 =? 0) && negb (y mod 100 =? 0)) || (y mod 400 =? 0).

Definition days_in_month (y m : Z) : Z :=
  if m =? 2 then (if is_leap y then 29 else 28)
  else if (m =? 4) || (m =? 6) || (m =? 9) || (m =? 11) then 30
  else 31.

(** Decimal digits. *)
Definition digit (n : Z) : ascii := ascii_of_nat (48 + Z.to_nat (n mod 10)).

Definition pad2 (n : Z) : string :=
  String (digit (n / 10)) (String (digit n) "").
Definition pad3 (n : Z) : string :=
  String (digit (n / 100)) (pad2 n).
Definition pad4 (n : Z) : string :=
  String (digit (n / 1000)) (pad3 n).
Definition pad6 (n : Z) : string :=
  String (digit (n / 100000)) (String (digit (n / 10000)) (pad4 n)).

(** Years 0..9999 print with four digits, any other year with a sign and six
    digits (the standard's expanded years). *)
Definition year_string (y : Z) : string :=
  if (0 <=? y) && (y <=? 9999) then pad4 y
  else if y <? 0 then "-" ++ pad6 (- y)
  else "+" ++ pad6 y.

(** [new Date(t).toISOString()]: YYYY-MM-DDTHH:mm:ss.sssZ, in UTC. *)
Definition toISOString (t : Z) : string :=
  let '(y, m, d) := civil_from_days (Day t) in
  let ms := TimeWithinDay t in
  year_string y ++ "-" ++ pad2 m ++ "-" ++ pad2 d ++ "T"
  ++ pad2 (ms / 3600000) ++ ":" ++ pad2 (ms / 60000 mod 60) ++ ":"
  ++ pad2 (ms / 1000 mod 60) ++ "." ++ pad3 (ms mod 1000) ++ "Z".

(** Reading the format back. *)
Definition digit_val (c : ascii) : option Z :=
  let n := Z.of_nat (nat_of_ascii c) in
  if (48 <=? n) && (n <=? 57) then Some (n - 48) else None.

Fixpoint number (digits : nat) (acc : Z) (s : list ascii)
  : option (Z * list ascii) :=
  match digits with
  | O => Some (acc, s)
  | S k =>
      match s with
      | c :: rest =>
          match digit_val c with
          | Some v => number k (10 * acc + v) rest
          | None => None
          end
      | [] => None
      end
  end.

Definition expect (c : ascii) (s : list ascii) : option (list ascii) :=
  match s with
  | c' :: rest => if Ascii.eqb c c' then Some rest else None
  | [] => None
  end.

(** [Date.parse] on the four-digit-year form written by [toISOString]; any
    other text, and any field out of range, is refused. *)
Definition Date_parse (text : string) : option Z :=
  match number 4 0 (list_ascii_of_string text) with
  | Some (y, s) =>
  match expect "-" s with Some s =>
  match number 2 0 s with Some (m, s) =>
  match expect "-" s with Some s =>
  match number 2 0 s with Some (d, s) =>
  match expect "T" s with Some s =>
  match number 2 0 s with Some (hh, s) =>
  match expect ":" s with Some s =>
  match number 2 0 s with Some (mm, s) =>
  match expect ":" s with Some s =>
  match number 2 0 s with Some (ss, s) =>
  match expect "." s with Some s =>
  match number 3 0 s with Some (mil, s) =>
  match s with
  | ["Z"%char] =>
      if (1 <=? m) && (m <=? 12) && (1 <=? d) && (d <=? days_in_month y m)
         && (hh <=? 23) && (mm <=? 59) && (ss <=? 59)
      then Some (days_from_civil y m d * msPerDay
                 + hh * 3600000 + mm * 60000 + ss * 1000 + mil)
      else None
  | _ => None
  end
  | None => None end | None => None end | None => None end | None => None end
  | None => None end | None => None end | None => None end | None => None end
  | None => None end | None => None end | None => None end | None => None end
  | None => None
  end.

(** The time values whose year prints with four digits: from
    0000-01-01T00:00:00.000Z up to 9999-12-31T23:59:59.999Z. *)
Definition four_digit_year (t : Z) : Prop :=
  -62167219200000 <= t < 253402300800000.

End IsoDate.

(* ================================================================== *)
(** * Values, errors and JSON                                          *)
(* ================================================================== *)

Module Js.

(** What [JSON.parse] returns, and [Undefined] for a property that is not
    there.  A number is the rational it denotes (a literal too large for a
    double reads as Infinity, which the handlers treat as any other non-zero
    number). *)
Inductive value : Type :=
| Undefined
| Null
| Bool (b : bool)
| Num (x : Q)
| Str (s : string)
| Arr (items : list value)
| Obj (props : list (string * value)).

(** A thrown [Error]: its constructor's name and its [message]. *)
Record JsError : Type := mkError { err_name : string; message : string }.

Inductive Result (A : Type) : Type :=
| Ok (a : A)
| Throw (e : JsError).
Arguments Ok {A} a.
Arguments Throw {A} e.

(** ToBoolean. *)
Definition truthy (v : value) : bool :=
  match v with
  | Undefined | Null => false
  | Bool b => b
  | Num x => negb (Qeq_bool x 0)
  | Str s => negb (String.eqb s "")
  | Arr _ | Obj _ => true
  end.

Fixpoint lookup (k : string) (props : list (string * value)) : value :=
  match props with
  | [] => Undefined
  | (k', v) :: rest => if String.eqb k k' then v else lookup k rest
  end.

(** The own property [k] of a value; only an object has any. *)
Definition own (v : value) (k : string) : value :=
  match v with
  | Obj props => lookup k props
  | _ => Undefined
  end.

(** [v.k] for the property names the handlers read (name, email, subject,
    message): no prototype of a JSON value defines one of them, so only own
    properties answer; reading a property of [null] or [undefined] throws. *)
Definition get (v : value) (k : string) : Result value :=
  match v with
  | Undefined =>
      Throw (mkError "TypeError"
               ("Cannot read properties of undefined (reading '" ++ k ++ "')"))
  | Null =>
      Throw (mkError "TypeError"
               ("Cannot read properties of null (reading '" ++ k ++ "')"))
  | _ => Ok (own v k)
  end.

(** [a || b]. *)
Definition or_else (a b : value) : value := if truthy a then a else b.

(** ** [JSON.stringify] on the objects the handlers answer with: own
    properties in order, each a string or an integral number. *)
Inductive payload : Type :=
| PStr (s : string)
| PNum (n : Z).

Definition dquote : string := String "034"%char "".

Definition hex_digit (n : nat) : ascii :=
  if (n <? 10)%nat then ascii_of_nat (48 + n) else ascii_of_nat (87 + n).

(** QuoteJSONString on one character. *)
Definition escape_char (c : ascii) : string :=
  let n := nat_of_ascii c in
  if (n =? 34)%nat then String "092"%char dquote
  else if (n =? 92)%nat then String "092"%char (String "092"%char "")
  else if (n =? 8)%nat then String "092"%char "b"
  else if (n =? 9)%nat then String "092"%char "t"
  else if (n =? 10)%nat then String "092"%char "n"
  else if (n =? 12)%nat then String "092"%char "f"
  else if (n =? 13)%nat then String "092"%char "r"
  else if (n <? 32)%nat then
    String "092"%char
      ("u00" ++ String (hex_digit (n / 16)) (String (hex_digit (n mod 16)) ""))
  else String c "".

Fixpoint escape (s : string) : string :=
  match s with
  | EmptyString => ""
  | String c rest => escape_char c ++ escape rest
  end.

Definition quote (s : string) : string := dquote ++ escape s ++ dquote.

(** Decimal digits of a natural number, most significant first. *)
Fixpoint digits_fuel (fuel : nat) (n : Z) (acc : string) : string :=
  match fuel with
  | O => acc
  | S f =>
      let acc' := String (IsoDate.digit n) acc in
      if n <? 10 then acc' else digits_fuel f (n / 10) acc'
  end.

Definition Z_to_string (n : Z) : string :=
  if n <? 0 then "-" ++ digits_fuel (S (Z.to_nat (Z.log2 (- n)))) (- n) ""
  else digits_fuel (S (Z.to_nat (Z.log2 n))) n "".

Definition payload_string (p : payload) : string :=
  match p with
  | PStr s => quote s
  | PNum n => Z_to_string n
  end.

Fixpoint members (props : list (string * payload)) : string :=
  match props with
  | [] => ""
  | [(k, v)] => quote k ++ ":" ++ payload_string v
  | (k, v) :: rest => quote k ++ ":" ++ payload_string v ++ "," ++ members rest
  end.

Definition JSON_stringify (props : list (string * payload)) : string :=
  "{" ++ members props ++ "}".

End Js.

(* ================================================================== *)
(** * A reference [JSON.parse]                                         *)
(* ================================================================== *)

(** The handlers are stated over any [JSON.parse]; this one runs them on
    concrete requests.  It reads the JSON grammar except for [\u] escapes and
    for numbers with a fraction, an exponent or more than sixteen digits,
    which it refuses. *)
Module JsonText.
Import Js.

Definition SyntaxError (msg : string) : JsError := mkError "SyntaxError" msg.

Definition is_ws (c : ascii) : bool :=
  let n := nat_of_ascii c in
  ((n =? 32) || (n =? 9) || (n =? 10) || (n =? 13))%nat.

Fixpoint skip_ws (s : list ascii) : list ascii :=
  match s with
  | c :: rest => if is_ws c then skip_ws rest else s
  | [] => []
  end.

(** The characters of a string literal after its opening quote. *)
Fixpoint string_body (s : list ascii) (acc : string)
  : option (string * list ascii) :=
  match s with
  | [] => None
  | c :: rest =>
      let n := nat_of_ascii c in
      if (n =? 34)%nat then Some (acc, rest)
      else if (n <? 32)%nat then None
      else if (n =? 92)%nat then
        match rest with
        | e :: rest' =>
            let put (c' : ascii) := string_body rest' (acc ++ String c' "") in
            let m := nat_of_ascii e in
            if (m =? 34)%nat then put "034"%char
            else if (m =? 92)%nat then put "092"%char
            else if (m =? 47)%nat then put "/"%char
            else if (m =? 98)%nat then put "008"%char
            else if (m =? 102)%nat then put "012"%char
            else if (m =? 110)%nat then put "010"%char
            else if (m =? 114)%nat then put "013"%char
            else if (m =? 116)%nat then put "009"%char
            else None
        | [] => None
        end
      else string_body rest (acc ++ String c "")
  end.

Fixpoint digits (s : list ascii) (acc : Z) (count : nat)
  : Z * nat * list ascii :=
  match s with
  | c :: rest =>
      match IsoDate.digit_val c with
      | Some v => digits rest (10 * acc + v) (S count)
      | None => (acc, count, s)
      end
  | [] => (acc, count, s)
  end.

Definition number_end (s : list ascii) : bool :=
  match s with
  | c :: _ =>
      let n := nat_of_ascii c in
      negb ((n =? 46) || (n =? 101) || (n =? 69))%nat
  | [] => true
  end.

(** An integer literal: no leading zero, at most sixteen digits. *)
Definition integer (s : list ascii) : option (Z * list ascii) :=
  let '(n, count, rest) := digits s 0 0%nat in
  let leading_zero :=
    match s with
    | c :: _ => (nat_of_ascii c =? 48)%nat && (1 <? count)%nat
    | [] => false
    end in
  if (1 <=? count)%nat && (count <=? 16)%nat && negb leading_zero
     && number_end rest
  then Some (n, rest) else None.

Fixpoint starts_with (p s : list ascii) : option (list ascii) :=
  match p, s with
  | [], _ => Some s
  | c :: p', c' :: s' => if Ascii.eqb c c' then starts_with p' s' else None
  | _ :: _, [] => None
  end.

(** Defining a property: a repeated key keeps its place and takes the later
    value. *)
Fixpoint set_prop (k : string) (v : value) (props : list (string * value))
  : list (string * value) :=
  match props with
  | [] => [(k, v)]
  | (k', v') :: rest =>
      if String.eqb k k' then (k, v) :: rest else (k', v') :: set_prop k v rest
  end.

Fixpoint parse_value (fuel : nat) (s : list ascii)
  : option (value * list ascii) :=
  match fuel with
  | O => None
  | S f =>
      match skip_ws s with
      | [] => None
      | c :: rest =>
          let n := nat_of_ascii c in
          if (n =? 123)%nat then
            match skip_ws rest with
            | c' :: rest' =>
                if (nat_of_ascii c' =? 125)%nat then Some (Obj [], rest')
                else parse_members f (c' :: rest') []
            | [] => None
            end
          else if (n =? 91)%nat then
            match skip_ws rest with
            | c' :: rest' =>
                if (nat_of_ascii c' =? 93)%nat then Some (Arr [], rest')
                else parse_elements f (c' :: rest') []
            | [] => None
            end
          else if (n =? 34)%nat then
            match string_body rest "" with
            | Some (str, rest') => Some (Str str, rest')
            | None => None
            end
          else if (n =? 45)%nat then
            match integer rest with
            | Some (z, rest') => Some (Num (inject_Z (- z)), rest')
            | None => None
            end
          else
            match starts_with (list_ascii_of_string "true") (c :: rest),
                  starts_with (list_ascii_of_string "false") (c :: rest),
                  starts_with (list_ascii_of_string "null") (c :: rest) with
            | Some rest', _, _ => Some (Bool true, rest')
            | _, Some rest', _ => Some (Bool false, rest')
            | _, _, Some rest' => Some (Null, rest')
            | None, None, None =>
                match integer (c :: rest) with
                | Some (z, rest') => Some (Num (inject_Z z), rest')
                | None => None
                end
            end
      end
  end

with parse_elements (fuel : nat) (s : list ascii) (acc : list value)
  : option (value * list ascii) :=
  match fuel with
  | O => None
  | S f =>
      match parse_value f s with
      | Some (v, rest) =>
          match skip_ws rest with
          | c :: rest' =>
              if (nat_of_ascii c =? 44)%nat then
                parse_elements f rest' (acc ++ [v])
              else if (nat_of_ascii c =? 93)%nat then
                Some (Arr (acc ++ [v]), rest')
              else None
          | [] => None
          end
      | None => None
      end
  end

with parse_members (fuel : nat) (s : list ascii) (acc : list (string * value))
  : option (value * list ascii) :=
  match fuel with
  | O => None
  | S f =>
      match skip_ws s with
      | q :: rest =>
          if (nat_of_ascii q =? 34)%nat then
            match string_body rest "" with
            | Some (k, rest1) =>
                match skip_ws rest1 with
                | colon :: rest2 =>
                    if (nat_of_ascii colon =? 58)%nat then
                      match parse_value f rest2 with
                      | Some (v, rest3) =>
                          match skip_ws rest3 with
                          | c :: rest4 =>
                              if (nat_of_ascii c =? 44)%nat then
                                parse_members f rest4 (set_prop k v acc)
                              else if (nat_of_ascii c =? 125)%nat then
                                Some (Obj (set_prop k v acc), rest4)
                              else None
                          | [] => None
                          end
                      | None => None
                      end
                    else None
                | [] => None
                end
            | None => None
            end
          else None
      | [] => None
      end
  end.

Definition JSON_parse (text : string) : Result value :=
  let s := list_ascii_of_string text in
  match parse_value (S (List.length s)) s with
  | Some (v, rest) =>
      match skip_ws rest with
      | [] => Ok v
      | _ :: _ =>
          Throw (SyntaxError
                   "Unexpected non-whitespace character after JSON")
      end
  | None => Throw (SyntaxError "Unexpected token in JSON")
  end.

End JsonText.

(* ================================================================== *)
(** * The function's surroundings: clock, store, console               *)
(* ================================================================== *)

Module Runtime.
Export Js.

(** The API gateway's proxy event: [body] is a string or [null]. *)
Record Event : Type := mkEvent {
  httpMethod : string;
  path : string;
  body : option string }.

Record Response : Type := mkResponse {
  statusCode : Z;
  headers : list (string * string);
  response_body : string }.

(** The record a submission is stored as. *)
Record Submission : Type := mkSubmission {
  id : Z;
  name : value;
  email : value;
  subject : value;
  message : value;
  createdAt : string }.

Record PutCommand : Type := mkPut {
  TableName : string;
  Item : Submission }.

Inductive LogEntry : Type :=
| LogEvent (e : Event)           (* console.log('Event:', ...) *)
| LogError (e : JsError).        (* console.error('Error:', error) *)

(** Everything a call reads or changes outside itself.  [clock n] is the
    n-th reading of the system clock, in epoch milliseconds; [store_fault]
    says which writes the store rejects, and with what error; [table] holds
    the writes it accepted, oldest first. *)
Record World : Type := mkWorld {
  clock : nat -> Z;
  reads : nat;
  CONTACTS_TABLE : option string;
  store_fault : PutCommand -> option JsError;
  table : list PutCommand;
  console : list LogEntry }.



(** Computations that read and change the world and may throw. *)
Definition M (A : Type) : Type := World -> Result A * World.

Definition ret {A : Type} (a : A) : M A := fun w => (Ok a, w).

Definition bind {A B : Type} (m : M A) (k : A -> M B) : M B :=
  fun w =>
    match m w with
    | (Ok a, w') => k a w'
    | (Throw e, w') => (Throw e, w')
    end.

Definition lift {A : Type} (r : Result A) : M A := fun w => (r, w).

Definition try_catch {A : Type} (m : M A) (handle : JsError -> M A) : M A :=
  fun w =>
    match m w with
    | (Ok a, w') => (Ok a, w')
    | (Throw e, w') => handle e w'
    end.

Declare Scope js_scope.
Delimit Scope js_scope with js.
Notation "x <- m ;; k" := (bind m (fun x => k))
  (at level 61, m at next level, right associativity) : js_scope.
Notation "m ;; k" := (bind m (fun _ => k))
  (at level 61, right associativity) : js_scope.

Definition read_clock : M Z :=
  fun w =>
    (Ok (clock w (reads w)),
     mkWorld (clock w) (S (reads w)) (CONTACTS_TABLE w) (store_fault w)
             (table w) (console w)).

(** [Date.now()]. *)
Definition Date_now : M Z := read_clock.

(** [new Date().toISOString()]. *)
Definition new_Date_toISOString : M string :=
  bind read_clock (fun t => ret (IsoDate.toISOString t)).

Definition console_write (entry : LogEntry) : M unit :=
  fun w =>
    (Ok tt,
     mkWorld (clock w) (reads w) (CONTACTS_TABLE w) (store_fault w)
             (table w) (console w ++ [entry])).

(** [await dynamodb.send(new PutCommand(...))]. *)
Definition dynamodb_send (cmd : PutCommand) : M unit :=
  fun w =>
    match store_fault w cmd with
    | Some e => (Throw e, w)
    | None =>
        (Ok tt,
         mkWorld (clock w) (reads w) (CONTACTS_TABLE w) (store_fault w)
                 (table w ++ [cmd]) (console w))
    end.

(** [process.env.CONTACTS_TABLE]. *)
Definition env_CONTACTS_TABLE : M (option string) :=
  fun w => (Ok (CONTACTS_TABLE w), w).

End Runtime.

(* ================================================================== *)
(** * server/simple-lambda.js                                          *)
(* ================================================================== *)

Module SimpleLambda.
Import Runtime.
Local Open Scope js_scope.

Section Handler.

(** The platform's [JSON.parse]. *)
Variable JSON_parse : string -> Result value.

Definition cors_headers : list (string * string) :=
  [ ("Access-Control-Allow-Origin", "*");
    ("Access-Control-Allow-Headers",
     "Content-Type,X-Amz-Date,Authorization,X-Api-Key,X-Amz-Security-Token");
    ("Access-Control-Allow-Methods", "GET,POST,PUT,DELETE,OPTIONS") ].

Definition json_headers : list (string * string) :=
  cors_headers ++ [("Content-Type", "application/json")].

(** [event.body || '{}']. *)
Definition body_text (event : Event) : string :=
  match body event with
  | None => "{}"
  | Some s => if String.eqb s "" then "{}" else s
  end.

(** [process.env.CONTACTS_TABLE || 'portfolio-contacts']. *)
Definition table_name (configured : option string) : string :=
  match configured with
  | None => "portfolio-contacts"
  | Some s => if String.eqb s "" then "portfolio-contacts" else s
  end.

(** The [try] block. *)
Definition route (event : Event) : M Response :=
  if String.eqb (path event) "/health" && String.eqb (httpMethod event) "GET"
  then
    timestamp <- new_Date_toISOString ;;
    ret (mkResponse 200 json_headers
           (JSON_stringify [("status", PStr "ok");
                            ("timestamp", PStr timestamp)]))
  else if String.eqb (path event) "/api/contact"
          && String.eqb (httpMethod event) "POST"
  then
    body <- lift (JSON_parse (body_text event)) ;;
    now <- Date_now ;;
    body_name <- lift (get body "name") ;;
    body_email <- lift (get body "email") ;;
    body_subject <- lift (get body "subject") ;;
    body_message <- lift (get body "message") ;;
    created <- new_Date_toISOString ;;
    let submission :=
      mkSubmission now body_name body_email body_subject body_message created in
    configured <- env_CONTACTS_TABLE ;;
    dynamodb_send (mkPut (table_name configured) submission) ;;
    ret (mkResponse 200 json_headers
           (JSON_stringify
              [("message", PStr "Contact form submitted successfully");
               ("id", PNum (id submission))]))
  else
    ret (mkResponse 404 json_headers
           (JSON_stringify [("message", PStr "Not Found")])).

(** The [catch] block. *)
Definition on_error (error : JsError) : M Response :=
  console_write (LogError error) ;;
  ret (mkResponse 500 json_headers
         (JSON_stringify [("message", PStr "Internal server error");
                          ("error", PStr (Js.message error))])).

Definition handler (event : Event) : M Response :=
  console_write (LogEvent event) ;;
  if String.eqb (httpMethod event) "OPTIONS"
  then ret (mkResponse 200 cors_headers "")
  else try_catch (route event) on_error.

End Handler.
End SimpleLambda.

(* ================================================================== *)
(** * The handler listed in the deployment guide                       *)
(* ================================================================== *)

Module DeployGuide.
Import Runtime.
Local Open Scope js_scope.

Section Handler.

Variable JSON_parse : string -> Result value.

Definition headers : list (string * string) :=
  [ ("Access-Control-Allow-Origin", "*");
    ("Access-Control-Allow-Headers", "Content-Type");
    ("Access-Control-Allow-Methods", "OPTIONS,POST,GET");
    ("Content-Type", "application/json") ].

(** [JSON.parse(event.body)]: a [null] body is read as the text null. *)
Definition body_text (event : Event) : string :=
  match body event with
  | None => "null"
  | Some s => s
  end.

(** [const { name, email, subject, message } = body]. *)
Definition destructure (body : value)
  : Result (value * value * value * value) :=
  match body with
  | Undefined =>
      Throw (mkError "TypeError"
        "Cannot destructure property 'name' of 'body' as it is undefined.")
  | Null =>
      Throw (mkError "TypeError"
        "Cannot destructure property 'name' of 'body' as it is null.")
  | _ =>
      Ok (own body "name", own body "email",
          own body "subject", own body "message")
  end.

(** The [try] block of the contact route. *)
Definition submit (event : Event) : M Response :=
  body <- lift (JSON_parse (body_text event)) ;;
  fields <- lift (destructure body) ;;
  let '(name, email, subject, message) := fields in
  if negb (truthy name) || negb (truthy email) || negb (truthy message)
  then
    ret (mkResponse 400 headers
           (JSON_stringify [("error", PStr "Missing required fields")]))
  else
    now <- Date_now ;;
    created <- new_Date_toISOString ;;
    let submission :=
      mkSubmission now name email (or_else subject (Str "No subject"))
                   message created in
    dynamodb_send (mkPut "portfolio-contact-submissions" submission) ;;
    ret (mkResponse 200 headers
           (JSON_stringify
              [("message", PStr "Contact form submitted successfully");
               ("id", PNum (id submission))])).

(** Its [catch] block. *)
Definition on_error (error : JsError) : M Response :=
  console_write (LogError error) ;;
  ret (mkResponse 500 headers
         (JSON_stringify [("error", PStr "Internal server error")])).

Definition handler (event : Event) : M Response :=
  console_write (LogEvent event) ;;
  if String.eqb (httpMethod event) "OPTIONS"
  then ret (mkResponse 200 headers "")
  else if String.eqb (httpMethod event) "GET"
          && String.eqb (path event) "/api/health"
  then
    timestamp <- new_Date_toISOString ;;
    ret (mkResponse 200 headers
           (JSON_stringify [("status", PStr "healthy");
                            ("timestamp", PStr timestamp);
                            ("environment", PStr "production")]))
  else if String.eqb (httpMethod event) "POST"
          && String.eqb (path event) "/api/contact"
  then try_catch (submit event) on_error
  else
    ret (mkResponse 404 headers
           (JSON_stringify [("error", PStr "Not found")])).

End Handler.
End DeployGuide.

(* ================================================================== *)
(** * client/src/components/galaxy-background.tsx                      *)
(* ================================================================== *)

(** Numbers are real numbers (the rounding of the doubles the browser
    computes with is not modelled), and [Math.random()] is the next element
    of a sequence of numbers.  The canvas calls of the draw functions change
    no particle and are left out; what they compute from a particle is kept
    ([currentBrightness], [baseOpacity]). *)
Module Galaxy.
Local Open Scope R_scope.

Definition leb (a b : R) : bool := if Rle_dec a b then true else false.
Definition ltb (a b : R) : bool := if Rlt_dec a b then true else false.

Module Star.
Record t : Type := mk {
  x : R;
  y : R;
  size : R;
  brightness : R;
  twinkleSpeed : R;
  twinklePhase : R;
  color : string }.
End Star.

Module NebulaCloud.
Record t : Type := mk {
  x : R;
  y : R;
  radius : R;
  opacity : R;
  rotation : R;
  rotationSpeed : R;
  pulsePhase : R;
  color : string }.
End NebulaCloud.

Module CosmicDust.
Record t : Type := mk {
  x : R;
  y : R;
  vx : R;
  vy : R;
  size : R;
  opacity : R;
  life : R;
  maxLife : R }.
End CosmicDust.

Module ShootingStar.
Record t : Type := mk {
  x : R;
  y : R;
  vx : R;
  vy : R;
  length : R;
  opacity : R;
  life : R }.
End ShootingStar.

(** The drawing surface: whole numbers of pixels. *)
Record Canvas : Type := mkCanvas { width : nat; height : nat }.

Definition W (c : Canvas) : R := INR (width c).
Definition H (c : Canvas) : R := INR (height c).

(** The effect's state: the canvas, the four arrays, and how many random
    numbers have been drawn. *)
Record Engine : Type := mkEngine {
  canvas : Canvas;
  stars : list Star.t;
  nebulaClouds : list NebulaCloud.t;
  cosmicDust : list CosmicDust.t;
  shootingStars : list ShootingStar.t;
  drawn : nat }.

Definition starCount : nat := 300.
Definition nebulaCount : nat := 12.
Definition dustCount : nat := 150.

(** Computations that draw random numbers. *)
Definition Rand (A : Type) : Type := nat -> A * nat.

Definition pure {A : Type} (a : A) : Rand A := fun n => (a, n).

Definition andThen {A B : Type} (m : Rand A) (k : A -> Rand B) : Rand B :=
  fun n => let (a, n') := m n in k a n'.

Declare Scope rand_scope.
Delimit Scope rand_scope with rand.
Notation "x <- m ;; k" := (andThen m (fun x => k))
  (at level 61, m at next level, right associativity) : rand_scope.

(** A loop that pushes [count] elements. *)
Fixpoint times {A : Type} (count : nat) (m : Rand A) : Rand (list A) :=
  match count with
  | O => pure []
  | S k =>
      andThen m (fun a =>
      andThen (times k m) (fun rest => pure (a :: rest)))
  end.

(** [array.forEach] with a callback that draws random numbers and changes
    its element in place. *)
Fixpoint forEach {A : Type} (f : A -> Rand A) (l : list A) : Rand (list A) :=
  match l with
  | [] => pure []
  | a :: rest =>
      andThen (f a) (fun a' =>
      andThen (forEach f rest) (fun rest' => pure (a' :: rest')))
  end.

Definition star_colors : list string :=
  ["#ffffff"; "#fff8dc"; "#e6e6fa"; "#ffd700"; "#87ceeb"].
Definition nebula_colors : list string :=
  ["#4b0082"; "#8b008b"; "#483d8b"; "#6a5acd"; "#9370db"].

(** [colors[Math.floor(r * 5)]]. *)
Definition pick (colors : list string) (r : R) : string :=
  nth (Z.to_nat (Int_part (r * 5))) colors ""%string.

(** [drawStar]: the alpha a star is drawn with. *)
Definition currentBrightness (star : Star.t) : R :=
  let twinkle := 0.5 + 0.5 * sin (Star.twinklePhase star) in
  Star.brightness star * twinkle.


(** The callbacks of [animate]'s loops. *)
Definition update_cloud (cloud : NebulaCloud.t) : NebulaCloud.t :=
  let rotation :=
    NebulaCloud.rotation cloud + NebulaCloud.rotationSpeed cloud in
  let pulsePhase := NebulaCloud.pulsePhase cloud + 0.08 in
  let x := NebulaCloud.x cloud + sin (pulsePhase * 0.5) * 0.3 in
  let y := NebulaCloud.y cloud + cos (pulsePhase * 0.3) * 0.2 in
  NebulaCloud.mk x y (NebulaCloud.radius cloud) (NebulaCloud.opacity cloud)
    rotation (NebulaCloud.rotationSpeed cloud) pulsePhase
    (NebulaCloud.color cloud).

Definition update_star (star : Star.t) : Star.t :=
  Star.mk (Star.x star) (Star.y star) (Star.size star) (Star.brightness star)
    (Star.twinkleSpeed star)
    (Star.twinklePhase star + Star.twinkleSpeed star)
    (Star.color star).

(** A shooting star after [x += vx; y += vy; life--; opacity = life / 100]. *)
Definition advance (s : ShootingStar.t) : ShootingStar.t :=
  let life := ShootingStar.life s - 1 in
  ShootingStar.mk (ShootingStar.x s + ShootingStar.vx s)
    (ShootingStar.y s + ShootingStar.vy s)
    (ShootingStar.vx s) (ShootingStar.vy s) (ShootingStar.length s)
    (life / 100) life.

(** [life <= 0 || x > canvas.width || y > canvas.height]. *)
Definition gone (c : Canvas) (s : ShootingStar.t) : bool :=
  leb (ShootingStar.life s) 0
  || ltb (W c) (ShootingStar.x s)
  || ltb (H c) (ShootingStar.y s).

Fixpoint remove_at {A : Type} (index : nat) (l : list A) : list A :=
  match index, l with
  | _, [] => []
  | O, _ :: rest => rest
  | S i, a :: rest => a :: remove_at i rest
  end.

Fixpoint replace_at {A : Type} (index : nat) (a' : A) (l : list A) : list A :=
  match index, l with
  | _, [] => []
  | O, _ :: rest => a' :: rest
  | S i, a :: rest => a :: replace_at i a' rest
  end.

(** [shootingStars.forEach((shootingStar, index) => ...)] with its
    [shootingStars.splice(index, 1)]: [forEach] visits the indices
    0 .. length - 1 of the array as it was when the loop began, and calls
    back only for an index that is still in the array when its turn comes. *)
Fixpoint forEach_splice (visits index : nat) (c : Canvas)
  (array : list ShootingStar.t) : list ShootingStar.t :=
  match visits with
  | O => array
  | S rest =>
      match nth_error array index with
      | None => forEach_splice rest (S index) c array
      | Some shootingStar =>
          let moved := advance shootingStar in
          if gone c moved
          then forEach_splice rest (S index) c (remove_at index array)
          else forEach_splice rest (S index) c (replace_at index moved array)
      end
  end.

Definition update_shootingStars (c : Canvas) (array : list ShootingStar.t)
  : list ShootingStar.t :=
  forEach_splice (List.length array) 0 c array.

Definition resizeCanvas (innerWidth innerHeight : nat) (e : Engine) : Engine :=
  mkEngine (mkCanvas innerWidth innerHeight) (stars e) (nebulaClouds e)
    (cosmicDust e) (shootingStars e) (drawn e).

Section WithRandom.

(** [random n] is what the n-th call of [Math.random()] returns. *)
Variable random : nat -> R.

Local Open Scope rand_scope.

Definition Math_random : Rand R := fun n => (random n, S n).

Definition createStar (c : Canvas) : Rand Star.t :=
  rx <- Math_random ;; ry <- Math_random ;; rsize <- Math_random ;;
  rbright <- Math_random ;; rspeed <- Math_random ;; rphase <- Math_random ;;
  rcolor <- Math_random ;;
  pure (Star.mk (rx * W c) (ry * H c) (rsize * 3 + 0.5) rbright
          (rspeed * 0.08 + 0.02) (rphase * PI * 2) (pick star_colors rcolor)).

Definition createNebulaCloud (c : Canvas) : Rand NebulaCloud.t :=
  rx <- Math_random ;; ry <- Math_random ;; rradius <- Math_random ;;
  ropacity <- Math_random ;; rspeed <- Math_random ;; rphase <- Math_random ;;
  rcolor <- Math_random ;;
  pure (NebulaCloud.mk (rx * W c) (ry * H c) (rradius * 150 + 50)
          (ropacity * 0.3 + 0.1) 0 ((rspeed - 0.5) * 0.02) (rphase * PI * 2)
          (pick nebula_colors rcolor)).

Definition createCosmicDust (c : Canvas) : Rand CosmicDust.t :=
  rx <- Math_random ;; ry <- Math_random ;; rvx <- Math_random ;;
  rvy <- Math_random ;; rsize <- Math_random ;; ropacity <- Math_random ;;
  rlife <- Math_random ;;
  pure (CosmicDust.mk (rx * W c) (ry * H c) ((rvx - 0.5) * 2) ((rvy - 0.5) * 2)
          (rsize * 2.5 + 0.5) (ropacity * 0.9 + 0.3) (rlife * 1000) 1000).

(** [createShootingStar]: the spawn check and the push. *)
Definition createShootingStar (c : Canvas) (array : list ShootingStar.t)
  : Rand (list ShootingStar.t) :=
  r <- Math_random ;;
  if ltb r 0.008 then
    rx <- Math_random ;; ry <- Math_random ;; rvx <- Math_random ;;
    rvy <- Math_random ;; rlength <- Math_random ;; rlife <- Math_random ;;
    pure (array
          ++ [ShootingStar.mk (rx * W c) (ry * H c * 0.5) (rvx * 8 + 4)
                (rvy * 4 + 2) (rlength * 80 + 50) 1 (rlife * 150 + 80)])%list
  else pure array.

Definition update_dust (c : Canvas) (dust : CosmicDust.t) : Rand CosmicDust.t :=
  let x := CosmicDust.x dust + CosmicDust.vx dust in
  let y := CosmicDust.y dust + CosmicDust.vy dust in
  let life := CosmicDust.life dust - 1 in
  let x := if ltb x 0 then W c else x in
  let x := if ltb (W c) x then 0 else x in
  let y := if ltb y 0 then H c else y in
  let y := if ltb (H c) y then 0 else y in
  if leb life 0 then
    r <- Math_random ;;
    pure (CosmicDust.mk x y (CosmicDust.vx dust) (CosmicDust.vy dust)
            (CosmicDust.size dust) (r * 0.8 + 0.2)
            (CosmicDust.maxLife dust) (CosmicDust.maxLife dust))
  else
    pure (CosmicDust.mk x y (CosmicDust.vx dust) (CosmicDust.vy dust)
            (CosmicDust.size dust) (CosmicDust.opacity dust) life
            (CosmicDust.maxLife dust)).

(** The effect's body up to the first frame: size the canvas to the window
    and fill the arrays. *)
Definition init (innerWidth innerHeight : nat) : Engine :=
  let c := mkCanvas innerWidth innerHeight in
  let (created_stars, n1) := times starCount (createStar c) 0%nat in
  let (created_clouds, n2) := times nebulaCount (createNebulaCloud c) n1 in
  let (created_dust, n3) := times dustCount (createCosmicDust c) n2 in
  mkEngine c created_stars created_clouds created_dust [] n3.

(** One frame. *)
Definition animate (e : Engine) : Engine :=
  let c := canvas e in
  let clouds := map update_cloud (nebulaClouds e) in
  let (dust, n1) := forEach (update_dust c) (cosmicDust e) (drawn e) in
  let twinkled := map update_star (stars e) in
  let (spawned, n2) := createShootingStar c (shootingStars e) n1 in
  let shooting := update_shootingStars c spawned in
  mkEngine c twinkled clouds dust shooting n2.

(** What the browser does to the effect: a display refresh or a resize of
    the window. *)
Inductive Event : Type :=
| Frame
| Resize (innerWidth innerHeight : nat).

Definition step (e : Engine) (ev : Event) : Engine :=
  match ev with
  | Frame => animate e
  | Resize w h => resizeCanvas w h e
  end.

Definition run (events : list Event) (e : Engine) : Engine :=
  fold_left step events e.

(** The frame in the order the specification gives: update and remove
    first, spawn check after.  Used only to compare with [animate]. *)
Definition animate_remove_then_spawn (e : Engine) : Engine :=
  let c := canvas e in
  let clouds := map update_cloud (nebulaClouds e) in
  let (dust, n1) := forEach (update_dust c) (cosmicDust e) (drawn e) in
  let twinkled := map update_star (stars e) in
  let swept := update_shootingStars c (shootingStars e) in
  let (shooting, n2) := createShootingStar c swept n1 in
  mkEngine c twinkled clouds dust shooting n2.

End WithRandom.

(** What [forEach_splice] amounts to: after a removal the next element has
    moved into the index just visited and is passed over for this frame. *)
Fixpoint sweep (c : Canvas) (l : list ShootingStar.t) : list ShootingStar.t :=
  match l with
  | [] => []
  | s :: rest =>
      if gone c (advance s)
      then match rest with
           | [] => []
           | skipped :: rest' => skipped :: sweep c rest'
           end
      else advance s :: sweep c rest
  end.

(** A measure of the work left in the array: each shooting star counts for
    its remaining life plus one. *)
Fixpoint weight (l : list ShootingStar.t) : R :=
  match l with
  | [] => 0
  | s :: rest => ShootingStar.life s + 1 + weight rest
  end.

(** What holds of a shooting star from its creation to its removal. *)
Definition launched (s : ShootingStar.t) : Prop :=
  0 < ShootingStar.life s < 230
  /\ 4 <= ShootingStar.vx s < 12
  /\ 2 <= ShootingStar.vy s < 6
  /\ 0 <= ShootingStar.x s
  /\ 0 <= ShootingStar.y s.

(** What holds of a star from its creation on. *)
Definition twinkling (star : Star.t) : Prop :=
  0 <= Star.brightness star < 1
  /\ 0.02 <= Star.twinkleSpeed star < 0.1.

(** How a cloud [later] is tied to the cloud [earlier] it has come from:
    the moves of the frames in between add up to a difference of two
    cosines across, and of two sines down. *)
Definition tethered (earlier later : NebulaCloud.t) : Prop :=
  2 * sin 0.02 * (NebulaCloud.x later - NebulaCloud.x earlier)
  = 0.3 * (cos (NebulaCloud.pulsePhase earlier * 0.5 + 0.02)
           - cos (NebulaCloud.pulsePhase later * 0.5 + 0.02))
  /\ 2 * sin 0.012 * (NebulaCloud.y later - NebulaCloud.y earlier)
     = 0.2 * (sin (NebulaCloud.pulsePhase later * 0.3 + 0.012)
              - sin (NebulaCloud.pulsePhase earlier * 0.3 + 0.012)).

(** A cloud [later] no further than 15.08 across and 16.69 down from the
    cloud [earlier]. *)
Definition near (earlier later : NebulaCloud.t) : Prop :=
  Rabs (NebulaCloud.x later - NebulaCloud.x earlier) <= 15.08
  /\ Rabs (NebulaCloud.y later - NebulaCloud.y earlier) <= 16.69.

(** A position within the canvas, edges included. *)
Definition inside (c : Canvas) (x y : R) : Prop :=
  0 <= x <= W c /\ 0 <= y <= H c.

(** A sequence [Math.random()] can return. *)
Definition unit_interval (random : nat -> R) : Prop :=
  forall n : nat, 0 <= random n < 1.

End Galaxy.

(* ================================================================== *)
(** * Sample runs of the animation                                     *)
(* ================================================================== *)

Module GalaxySamples.
Import Galaxy.
Local Open Scope R_scope.

(** Sequences of random numbers: constant ones, and one that puts the first
    nebula cloud next to the right edge with its pulse phase just before
    pi.  (The stars take the numbers 0 .. 2099, the first cloud 2100 ..
    2106.) *)
Definition steady (n : nat) : R := 0.5.
Definition nine_tenths (n : nat) : R := 0.9.
Definition eager (n : nat) : R := 0.005.
Definition edge (n : nat) : R :=
  if Nat.eqb n 2100 then 0.9999
  else if Nat.eqb n 2105 then (PI - 0.08) / (2 * PI)
  else 0.5.

Definition viewport : Canvas := mkCanvas 1000 800.

(** Two shooting stars in flight: the first is on its last frame. *)
Definition dying : ShootingStar.t :=
  ShootingStar.mk 320 160 4 2 60 0.01 1.
Definition follower : ShootingStar.t :=
  ShootingStar.mk 250 140 5 3 70 0.5 50.

(** The effect with just these two in its arrays. *)
Definition two_in_flight : Engine :=
  mkEngine viewport [] [] [] [dying; follower] 0.

End GalaxySamples.

(* ================================================================== *)
(** * Sample requests and surroundings                                 *)
(* ================================================================== *)

Module Samples.
Import Runtime.

(** A clock that advances one millisecond per reading, and one that is read
    twice within the same millisecond. *)
Definition ticking (n : nat) : Z := 1700000000000 + Z.of_nat n.

Definition accepting (cmd : PutCommand) : option JsError := None.

(** The store answers that the table does not exist. *)
Definition table_missing (cmd : PutCommand) : option JsError :=
  Some (mkError "ResourceNotFoundException" "Requested resource not found").

(** The document client as it is built in simple-lambda.js, with its
    default options: it refuses to marshal a record in which an attribute
    is undefined. *)
Definition is_undefined (v : value) : bool :=
  match v with
  | Undefined => true
  | _ => false
  end.

Definition marshal_error : JsError :=
  mkError "Error"
    ("Pass options.removeUndefinedValues=true to remove "
     ++ "undefined values from map/array/set.").

Definition refuses_undefined (cmd : PutCommand) : option JsError :=
  if is_undefined (name (Item cmd)) || is_undefined (email (Item cmd))
     || is_undefined (subject (Item cmd)) || is_undefined (message (Item cmd))
  then Some marshal_error
  else None.

Definition fresh_world : World := mkWorld ticking 0 None accepting [] [].
Definition strict_world : World :=
  mkWorld ticking 0 None refuses_undefined [] [].
Definition broken_world : World := mkWorld ticking 0 None table_missing [] [].

(** The request bodies, as the browser's [JSON.stringify] writes them. *)
Definition complete_body : string :=
  JSON_stringify [("name", PStr "A"); ("email", PStr "a@b.com");
                  ("message", PStr "hi")].
Definition nameless_body : string :=
  JSON_stringify [("email", PStr "a@b.com"); ("message", PStr "hi")].

Definition complete_post : Event :=
  mkEvent "POST" "/api/contact" (Some complete_body).
Definition nameless_post : Event :=
  mkEvent "POST" "/api/contact" (Some nameless_body).
Definition get_health : Event := mkEvent "GET" "/health" None.
Definition get_api_health : Event := mkEvent "GET" "/api/health" None.

End Samples.

(* ================================================================== *)
(** * More sample requests                                             *)
(* ================================================================== *)

Module MoreSamples.
Import Runtime.

Definition preflight : Event := mkEvent "OPTIONS" "/api/contact" None.
Definition get_unknown : Event := mkEvent "GET" "/api/unknown" None.
Definition bodyless_post : Event := mkEvent "POST" "/api/contact" None.

(** A form sent with its name left empty. *)
Definition empty_name_body : string :=
  JSON_stringify [("name", PStr ""); ("email", PStr "a@b.com");
                  ("subject", PStr ""); ("message", PStr "hi")].
Definition empty_name_post : Event :=
  mkEvent "POST" "/api/contact" (Some empty_name_body).

Definition null_post : Event := mkEvent "POST" "/api/contact" (Some "null").

(** A world with earlier writes and log lines. *)
Definition used_world : World :=
  mkWorld Samples.ticking 4 (Some "contacts-test") Samples.accepting
    [mkPut "contacts-test"
       (mkSubmission 1600000000000 (Str "B") (Str "b@c.org") (Str "s")
          (Str "m") "2020-09-13T12:26:40.001Z")]
    [LogEvent Samples.get_health].

End MoreSamples.

(* ================================================================== *)
(** * What the draw functions compute, and the dust                    *)
(* ================================================================== *)

Module GalaxyDraw.
Import Galaxy.
Local Open Scope R_scope.


(** [n.toString(16)] for a whole number [n]. *)
Fixpoint hex_fuel (fuel : nat) (n : Z) (acc : string) : string :=
  match fuel with
  | O => acc
  | S f =>
      let acc' := String (Js.hex_digit (Z.to_nat (n mod 16))) acc in
      if (n <? 16)%Z then acc' else hex_fuel f (n / 16) acc'
  end.

Definition toString16 (n : Z) : string :=
  if (n <? 0)%Z
  then ("-" ++ hex_fuel (S (Z.to_nat (Z.log2 (- n)))) (- n) "")%string
  else hex_fuel (S (Z.to_nat (Z.log2 n))) n ""%string.

(** [s.padStart(2, '0')]. *)
Definition padStart2 (s : string) : string :=
  match String.length s with
  | O => "00"%string
  | S O => ("0" ++ s)%string
  | _ => s
  end.



(** [drawShootingStar]: how far the trail reaches back from the head,
    [vx * length / 5] across and [vy * length / 5] down, and its far end,
    where the gradient and the stroke end. *)
Definition trail_reach (s : ShootingStar.t) : R * R :=
  (ShootingStar.vx s * ShootingStar.length s / 5,
   ShootingStar.vy s * ShootingStar.length s / 5).

Definition trail_end (s : ShootingStar.t) : R * R :=
  (ShootingStar.x s - fst (trail_reach s),
   ShootingStar.y s - snd (trail_reach s)).

Definition is_hex_digit (c : ascii) : bool :=
  let n := nat_of_ascii c in
  ((48 <=? n) && (n <=? 57) || (97 <=? n) && (n <=? 102))%nat.

Fixpoint all_hex (s : string) : bool :=
  match s with
  | EmptyString => true
  | String c rest => is_hex_digit c && all_hex rest
  end.


(** A colour the canvas can parse: a hash sign and [digits] hex digits. *)
Definition hex_colour (digits : nat) (s : string) : bool :=
  match s with
  | String c rest =>
      (nat_of_ascii c =? 35)%nat && (String.length rest =? digits)%nat
      && all_hex rest
  | EmptyString => false
  end.

(** [drawStar]: the offsets and colours of the glow's three stops. *)
Definition glow_stops (star : Star.t) : list (R * string) :=
  [ (0, Star.color star);
    (0.2, (Star.color star ++ "80")%string);
    (1, (Star.color star ++ "00")%string) ].

(** How many of the events are frames. *)
Fixpoint frames (events : list Event) : nat :=
  match events with
  | [] => O
  | Frame :: rest => S (frames rest)
  | Resize _ _ :: rest => frames rest
  end.



(** What holds of a shooting star's trail and opacity while it is in the
    array: the opacity is the 1 it was pushed with until the loop first
    visits the star, and a hundredth of its life from then on. *)
Definition trailing (s : ShootingStar.t) : Prop :=
  50 <= ShootingStar.length s <= 130
  /\ (ShootingStar.opacity s = 1
      \/ ShootingStar.opacity s = ShootingStar.life s / 100).

(** What one visit of the dust loop does to a particle on a canvas [c]. *)
Definition drifted (c : Canvas) (dust dust' : CosmicDust.t) : Prop :=
  let x := CosmicDust.x dust + CosmicDust.vx dust in
  let y := CosmicDust.y dust + CosmicDust.vy dust in
  inside c (CosmicDust.x dust') (CosmicDust.y dust')
  /\ (0 <= x <= W c -> CosmicDust.x dust' = x)
  /\ (x < 0 -> CosmicDust.x dust' = W c)
  /\ (W c < x -> CosmicDust.x dust' = 0)
  /\ (0 <= y <= H c -> CosmicDust.y dust' = y)
  /\ (y < 0 -> CosmicDust.y dust' = H c)
  /\ (H c < y -> CosmicDust.y dust' = 0)
  /\ CosmicDust.vx dust' = CosmicDust.vx dust
  /\ CosmicDust.vy dust' = CosmicDust.vy dust
  /\ CosmicDust.size dust' = CosmicDust.size dust
  /\ CosmicDust.maxLife dust' = CosmicDust.maxLife dust.

(** A star [star'] that is [star] after [n] times
    [twinklePhase += twinkleSpeed]: the speed added [n] times over, one
    addition after the other. *)
Definition twinkled (n : nat) (star star' : Star.t) : Prop :=
  star' = Star.mk (Star.x star) (Star.y star) (Star.size star)
            (Star.brightness star) (Star.twinkleSpeed star)
            (Nat.iter n (fun phase => phase + Star.twinkleSpeed star)
               (Star.twinklePhase star))
            (Star.color star).

(** A cloud [cloud'] that is [cloud] after [n] times
    [rotation += rotationSpeed; pulsePhase += 0.08]. *)
Definition pulsed (n : nat) (cloud cloud' : NebulaCloud.t) : Prop :=
  NebulaCloud.radius cloud' = NebulaCloud.radius cloud
  /\ NebulaCloud.opacity cloud' = NebulaCloud.opacity cloud
  /\ NebulaCloud.rotationSpeed cloud' = NebulaCloud.rotationSpeed cloud
  /\ NebulaCloud.color cloud' = NebulaCloud.color cloud
  /\ NebulaCloud.rotation cloud'
     = Nat.iter n (fun rotation => rotation + NebulaCloud.rotationSpeed cloud)
         (NebulaCloud.rotation cloud)
  /\ NebulaCloud.pulsePhase cloud'
     = Nat.iter n (fun phase => phase + 0.08) (NebulaCloud.pulsePhase cloud).

End GalaxyDraw.

(* ================================================================== *)
(** * The flight of a shooting star                                    *)
(* ================================================================== *)

Module GalaxyFlight.
Import Galaxy.
Local Open Scope R_scope.



(** A star [s'] that is [s] after one visit of the frame's loop: the
    velocity added to the position, one taken off the life. *)
Definition moved (s s' : ShootingStar.t) : Prop :=
  ShootingStar.x s' = ShootingStar.x s + ShootingStar.vx s
  /\ ShootingStar.y s' = ShootingStar.y s + ShootingStar.vy s
  /\ ShootingStar.vx s' = ShootingStar.vx s
  /\ ShootingStar.vy s' = ShootingStar.vy s
  /\ ShootingStar.life s' = ShootingStar.life s - 1.


End GalaxyFlight.

(* ================================================================== *)
(** * The spawn arithmetic in double precision                         *)
(* ================================================================== *)

Module Binary64.
Import PrimFloat.
Local Open Scope float_scope.

Definition length_of (r : float) : float := r * 80 + 50.

Definition length_top : float := 130.


End Binary64.

(* ================================================================== *)
(** * The contact form (client/src/components/contact-section.tsx)    *)
(* ================================================================== *)

Module ContactForm.
Import Js.

(** The [formData] state: an object, its properties in order. *)
Definition FormData : Type := list (string * value).

Definition empty_form : FormData :=
  [("name", Str ""); ("email", Str ""); ("subject", Str "");
   ("message", Str "")].

Record Toast : Type := mkToast {
  title : string;
  description : value;
  variant : string }.

(** The arguments of a call of [apiRequest]. *)
Record Request : Type := mkRequest {
  method : string;
  url : string;
  data : FormData }.

(** What the component holds and has done: the state, the toasts shown
    and the requests made, oldest first. *)
Record View : Type := mkView {
  formData : FormData;
  toasts : list Toast;
  requests : list Request }.

Definition initial : View := mkView empty_form [] [].

(** An array index: the canonical decimal text of a whole number below
    2^32 - 1.  The keys of an object are listed with its array indices
    first, in ascending order, and its other keys after them, in the order
    they were added. *)
Definition is_digit (c : ascii) : bool :=
  let n := nat_of_ascii c in ((48 <=? n) && (n <=? 57))%nat.

Fixpoint decimal (s : string) (acc : N) : option N :=
  match s with
  | EmptyString => Some acc
  | String c rest =>
      if is_digit c
      then decimal rest (10 * acc + N.of_nat (nat_of_ascii c - 48))%N
      else None
  end.

Definition array_index (k : string) : option N :=
  match k with
  | EmptyString => None
  | String c rest =>
      if (nat_of_ascii c =? 48)%nat && negb (String.eqb rest "")
      then None
      else match decimal k 0%N with
           | Some n => if (n <? 4294967295)%N then Some n else None
           | None => None
           end
  end.

Definition has_key (k : string) (props : FormData) : bool :=
  existsb (fun p => String.eqb k (fst p)) props.

(** Adding the array index [i], written [k], to an object that does not
    have it: it goes before the first key that is a larger index or no
    index. *)
Fixpoint insert_index (i : N) (k : string) (v : value) (props : FormData)
  : FormData :=
  match props with
  | [] => [(k, v)]
  | (k', v') :: rest =>
      match array_index k' with
      | Some j =>
          if (i <? j)%N then (k, v) :: (k', v') :: rest
          else (k', v') :: insert_index i k v rest
      | None => (k, v) :: (k', v') :: rest
      end
  end.

(** [setFormData((prev) => ({ ...prev, [name]: value }))]: a key the
    object has keeps its place; a new key goes to the end, unless it is an
    array index. *)
Definition handleChange (name value : string) (prev : FormData) : FormData :=
  match array_index name with
  | Some i =>
      if has_key name prev
      then JsonText.set_prop name (Str value) prev
      else insert_index i name (Str value) prev
  | None => JsonText.set_prop name (Str value) prev
  end.

(** [mutate(formData)], which calls
    [apiRequest("POST", "/api/contact", data)]. *)
Definition handleSubmit (v : View) : View :=
  mkView (formData v) (toasts v)
    (requests v ++ [mkRequest "POST" "/api/contact" (formData v)]).

Definition sent_toast : Toast :=
  mkToast "Message sent!"
    (Str "Thanks for reaching out. I'll get back to you soon.") "default".

Definition onSuccess (v : View) : View :=
  mkView empty_form (toasts v ++ [sent_toast]) (requests v).

(** [error.message || "Please try again later."]. *)
Definition onError (message : value) (v : View) : View :=
  mkView (formData v)
    (toasts v
     ++ [mkToast "Something went wrong"
           (or_else message (Str "Please try again later."))
           "destructive"])
    (requests v).

(** What happens to the component: a control named [name] changes to
    [value], the form is submitted, or a request settles. *)
Inductive Action : Type :=
| Change (name value : string)
| Submit
| Succeeded
| Failed (message : value).

Definition step (v : View) (a : Action) : View :=
  match a with
  | Change name value =>
      mkView (handleChange name value (formData v)) (toasts v) (requests v)
  | Submit => handleSubmit v
  | Succeeded => onSuccess v
  | Failed message => onError message v
  end.

Definition run (actions : list Action) (v : View) : View :=
  fold_left step actions v.

(** The names of the form's four controls. *)
Definition controls : list string := ["name"; "email"; "subject"; "message"].

Definition from_controls (a : Action) : Prop :=
  match a with
  | Change name _ => In name controls
  | _ => True
  end.

Definition is_submit (a : Action) : bool :=
  match a with Submit => true | _ => false end.

Definition is_settled (a : Action) : bool :=
  match a with Succeeded | Failed _ => true | _ => false end.

(** A [formData] with the four properties, each a string. *)
Definition well_formed (form : FormData) : Prop :=
  map fst form = controls
  /\ Forall (fun p => exists s : string, snd p = Str s) form.

(** A session: the name typed, a submit, more typing while the request is
    out, a failure without a message, a second submit that succeeds. *)
Definition session : list Action :=
  [Change "name" "Ada"; Change "email" "ada@example.org";
   Change "subject" "Hello"; Change "message" "Hi"; Submit;
   Change "message" "Hi again"; Failed (Str ""); Submit; Succeeded].

End ContactForm.

(* ================================================================== *)
(** * Properties of the date format                                    *)
(* ================================================================== *)

Module IsoDateFacts.
Import IsoDate.

Lemma civil_round_trip (days : Z) :
  let '(y, m, d) := civil_from_days days in
  1 <= m <= 12 /\ 1 <= d /\ days_from_civil y m d = days.
Proof.
  unfold civil_from_days, days_from_civil.
  set (z := days + 719468).
  set (era := z / 146097). set (doe := z mod 146097).
  assert (Hdoe : 0 <= doe < 146097) by (apply Z.mod_pos_bound; lia).
  assert (Hz : z = era * 146097 + doe)
    by (subst era doe; Z.div_mod_to_equations; lia).
  clearbody era doe.
  set (yoe := (doe - doe / 1460 + doe / 36524 - doe / 146096) / 365).
  set (doy := doe - (365 * yoe + yoe / 4 - yoe / 100)).
  set (mp := (5 * doy + 2) / 153).
  set (d := doy - (153 * mp + 2) / 5 + 1).
  assert (Hyoe : 0 <= yoe <= 399 /\ 0 <= doy <= 365).
  { subst doy yoe. Z.div_mod_to_equations. lia. }
  assert (Hmp : 0 <= mp <= 11 /\ 1 <= d <= 31).
  { subst d mp. Z.div_mod_to_equations. lia. }
  destruct (Z.ltb_spec mp 10); destruct (Z.leb_spec (mp + 3) 2);
    destruct (Z.leb_spec (mp - 9) 2); try lia.
  - split; [lia|]. split; [lia|].
    replace ((yoe + era * 400) / 400) with era
      by (Z.div_mod_to_equations; lia).
    replace ((yoe + era * 400) mod 400) with yoe
      by (Z.div_mod_to_equations; lia).
    replace (mp + 3 - 3) with mp by lia. subst d. fold doy. lia.
  - split; [lia|]. split; [lia|].
    replace (yoe + era * 400 + 1 - 1) with (yoe + era * 400) by lia.
    replace ((yoe + era * 400) / 400) with era
      by (Z.div_mod_to_equations; lia).
    replace ((yoe + era * 400) mod 400) with yoe
      by (Z.div_mod_to_equations; lia).
    replace (mp - 9 + 9) with mp by lia. subst d. fold doy. lia.
Qed.

Lemma civil_day_in_month (days : Z) :
  let '(y, m, d) := civil_from_days days in d <= days_in_month y m.
Proof.
  unfold civil_from_days.
  set (z := days + 719468).
  set (era := z / 146097). set (doe := z mod 146097).
  assert (Hdoe : 0 <= doe < 146097) by (apply Z.mod_pos_bound; lia).
  clearbody era doe.
  set (yoe := (doe - doe / 1460 + doe / 36524 - doe / 146096) / 365).
  set (doy := doe - (365 * yoe + yoe / 4 - yoe / 100)).
  set (mp := (5 * doy + 2) / 153).
  set (d := doy - (153 * mp + 2) / 5 + 1).
  unfold days_in_month, is_leap.
  destruct (Z.ltb_spec mp 10); destruct (Z.leb_spec (mp + 3) 2);
    destruct (Z.leb_spec (mp - 9) 2);
    repeat match goal with
           | |- context [Z.eqb ?a ?b] => destruct (Z.eqb_spec a b)
           end; simpl;
    subst d mp doy yoe; Z.div_mod_to_equations; lia.
Qed.

Lemma civil_year_range (t : Z) :
  four_digit_year t ->
  let '(y, _, _) := civil_from_days (Day t) in 0 <= y <= 9999.
Proof.
  unfold four_digit_year, Day, msPerDay, civil_from_days. intros Ht.
  set (z := t / 86400000 + 719468).
  assert (Hzr : -60 <= z < 3652365)
    by (subst z; Z.div_mod_to_equations; lia).
  set (era := z / 146097). set (doe := z mod 146097).
  assert (Hdoe : 0 <= doe < 146097) by (apply Z.mod_pos_bound; lia).
  assert (Hz : z = era * 146097 + doe)
    by (subst era doe; Z.div_mod_to_equations; lia).
  clearbody era doe. clearbody z.
  set (yoe := (doe - doe / 1460 + doe / 36524 - doe / 146096) / 365).
  set (doy := doe - (365 * yoe + yoe / 4 - yoe / 100)).
  set (mp := (5 * doy + 2) / 153).
  destruct (Z.ltb_spec mp 10); destruct (Z.leb_spec (mp + 3) 2);
    destruct (Z.leb_spec (mp - 9) 2);
    subst mp doy yoe; Z.div_mod_to_equations; lia.
Qed.

Lemma digit_val_digit (n : Z) : digit_val (digit n) = Some (n mod 10).
Proof.
  unfold digit.
  assert (H : 0 <= n mod 10 < 10) by (apply Z.mod_pos_bound; lia).
  assert (C : n mod 10 = 0 \/ n mod 10 = 1 \/ n mod 10 = 2 \/ n mod 10 = 3
              \/ n mod 10 = 4 \/ n mod 10 = 5 \/ n mod 10 = 6 \/ n mod 10 = 7
              \/ n mod 10 = 8 \/ n mod 10 = 9) by lia.
  repeat (destruct C as [C|C]; [rewrite C; reflexivity|]).
  rewrite C. reflexivity.
Qed.

Lemma list_ascii_of_string_app (a b : string) :
  list_ascii_of_string (a ++ b)
  = (list_ascii_of_string a ++ list_ascii_of_string b)%list.
Proof. induction a as [|c a IH]; simpl; [reflexivity|]. now rewrite IH. Qed.

Lemma number_pad2 (n : Z) (rest : list ascii) :
  0 <= n < 100 ->
  number 2 0 (list_ascii_of_string (pad2 n) ++ rest)%list = Some (n, rest).
Proof.
  intros H. unfold pad2. cbn [number list_ascii_of_string app].
  rewrite !digit_val_digit.
  do 2 f_equal. Z.div_mod_to_equations. lia.
Qed.

Lemma number_pad3 (n : Z) (rest : list ascii) :
  0 <= n < 1000 ->
  number 3 0 (list_ascii_of_string (pad3 n) ++ rest)%list = Some (n, rest).
Proof.
  intros H. unfold pad3, pad2. cbn [number list_ascii_of_string app].
  rewrite !digit_val_digit.
  do 2 f_equal. Z.div_mod_to_equations. lia.
Qed.

Lemma number_pad4 (n : Z) (rest : list ascii) :
  0 <= n < 10000 ->
  number 4 0 (list_ascii_of_string (pad4 n) ++ rest)%list = Some (n, rest).
Proof.
  intros H. unfold pad4, pad3, pad2. cbn [number list_ascii_of_string app].
  rewrite !digit_val_digit.
  do 2 f_equal. Z.div_mod_to_equations. lia.
Qed.

(** [Date.parse] reads back what [toISOString] prints. *)
Lemma Date_parse_toISOString (t : Z) :
  four_digit_year t -> Date_parse (toISOString t) = Some t.
Proof.
  intros Ht. unfold toISOString.
  pose proof (civil_round_trip (Day t)) as Hrt.
  pose proof (civil_day_in_month (Day t)) as Hdim.
  pose proof (civil_year_range t Ht) as Hyr.
  destruct (civil_from_days (Day t)) as [[y m] d].
  destruct Hrt as (Hm & Hd & Hback).
  assert (Hd31 : d <= 31).
  { revert Hdim. unfold days_in_month.
    repeat match goal with
           | |- context [if ?b then _ else _] => destruct b
           end; lia. }
  set (ms := TimeWithinDay t).
  assert (Hms : 0 <= ms < 86400000)
    by (subst ms; unfold TimeWithinDay, msPerDay; apply Z.mod_pos_bound; lia).
  unfold year_string.
  replace ((0 <=? y) && (y <=? 9999)) with true
    by (symmetry; apply andb_true_intro; split; apply Z.leb_le; lia).
  unfold Date_parse.
  rewrite !list_ascii_of_string_app.
  rewrite number_pad4 by lia.
  cbn [list_ascii_of_string app expect Ascii.eqb Bool.eqb].
  rewrite number_pad2 by lia.
  cbn [list_ascii_of_string app expect Ascii.eqb Bool.eqb].
  rewrite number_pad2 by lia.
  cbn [list_ascii_of_string app expect Ascii.eqb Bool.eqb].
  rewrite number_pad2 by (Z.div_mod_to_equations; lia).
  cbn [list_ascii_of_string app expect Ascii.eqb Bool.eqb].
  rewrite number_pad2 by (Z.div_mod_to_equations; lia).
  cbn [list_ascii_of_string app expect Ascii.eqb Bool.eqb].
  rewrite number_pad2 by (Z.div_mod_to_equations; lia).
  cbn [list_ascii_of_string app expect Ascii.eqb Bool.eqb].
  rewrite number_pad3 by (Z.div_mod_to_equations; lia).
  cbn [list_ascii_of_string app].
  replace ((1 <=? m) && (m <=? 12) && (1 <=? d) && (d <=? days_in_month y m)
           && (ms / 3600000 <=? 23) && (ms / 60000 mod 60 <=? 59)
           && (ms / 1000 mod 60 <=? 59)) with true.
  - f_equal. rewrite Hback. subst ms.
    unfold Day, TimeWithinDay, msPerDay. Z.div_mod_to_equations. lia.
  - symmetry. repeat (apply andb_true_intro; split); apply Z.leb_le; try lia;
      Z.div_mod_to_equations; lia.
Qed.

End IsoDateFacts.

(* ================================================================== *)
(** * Properties of server/simple-lambda.js                            *)
(* ================================================================== *)

Module SimpleLambdaFacts.
Import Runtime SimpleLambda Samples.

Lemma get_own (b : value) (k : string) :
  b <> Null -> b <> Undefined -> get b k = Ok (own b k).
Proof. destruct b; intros; try reflexivity; congruence. Qed.




Section AnyParser.

Variable JSON_parse : string -> Result value.

(** The contact route when the store accepts the write: the record is
    built from whatever the body holds, no field is looked at. *)
Lemma post_contact_stored (e : Event) (w : World) (b : value) :
  httpMethod e = "POST" -> path e = "/api/contact" ->
  JSON_parse (body_text e) = Ok b -> b <> Null -> b <> Undefined ->
  let submission :=
    mkSubmission (clock w (reads w)) (own b "name") (own b "email")
      (own b "subject") (own b "message")
      (IsoDate.toISOString (clock w (S (reads w)))) in
  let cmd := mkPut (table_name (CONTACTS_TABLE w)) submission in
  store_fault w cmd = None ->
  handler JSON_parse e w
  = (Ok (mkResponse 200 json_headers
           (JSON_stringify
              [("message", PStr "Contact form submitted successfully");
               ("id", PNum (clock w (reads w)))])),
     mkWorld (clock w) (S (S (reads w))) (CONTACTS_TABLE w) (store_fault w)
       (table w ++ [cmd]) (console w ++ [LogEvent e])).
Proof.
  intros Hm Hp Hb Hn Hu submission cmd Hs.
  unfold handler, route, try_catch, bind, console_write.
  rewrite Hm, Hp. cbn [String.eqb Ascii.eqb Bool.eqb andb].
  unfold lift. rewrite Hb.
  unfold Date_now, new_Date_toISOString, read_clock, bind, ret,
    env_CONTACTS_TABLE, dynamodb_send.
  rewrite !get_own by assumption.
  cbn [clock reads CONTACTS_TABLE store_fault table console id].
  fold submission. fold cmd. rewrite Hs. reflexivity.
Qed.

(** The contact route when the store rejects the write: the error's own
    message is copied into the answer. *)
Lemma post_contact_rejected (e : Event) (w : World) (b : value)
  (error : JsError) :
  httpMethod e = "POST" -> path e = "/api/contact" ->
  JSON_parse (body_text e) = Ok b -> b <> Null -> b <> Undefined ->
  let submission :=
    mkSubmission (clock w (reads w)) (own b "name") (own b "email")
      (own b "subject") (own b "message")
      (IsoDate.toISOString (clock w (S (reads w)))) in
  let cmd := mkPut (table_name (CONTACTS_TABLE w)) submission in
  store_fault w cmd = Some error ->
  handler JSON_parse e w
  = (Ok (mkResponse 500 json_headers
           (JSON_stringify
              [("message", PStr "Internal server error");
               ("error", PStr (Js.message error))])),
     mkWorld (clock w) (S (S (reads w))) (CONTACTS_TABLE w) (store_fault w)
       (table w) (console w ++ [LogEvent e] ++ [LogError error])).
Proof.
  intros Hm Hp Hb Hn Hu submission cmd Hs.
  unfold handler, route, try_catch, bind, console_write.
  rewrite Hm, Hp. cbn [String.eqb Ascii.eqb Bool.eqb andb].
  unfold lift. rewrite Hb.
  unfold Date_now, new_Date_toISOString, read_clock, bind, ret,
    env_CONTACTS_TABLE, dynamodb_send.
  rewrite !get_own by assumption.
  cbn [clock reads CONTACTS_TABLE store_fault table console id].
  fold submission. fold cmd. rewrite Hs.
  unfold on_error, bind, console_write, ret.
  cbn [clock reads CONTACTS_TABLE store_fault table console].
  now rewrite <- app_assoc.
Qed.

(** A body that does not parse: the parser's message is copied into the
    answer too. *)
Lemma post_contact_unparsable (e : Event) (w : World) (error : JsError) :
  httpMethod e = "POST" -> path e = "/api/contact" ->
  JSON_parse (body_text e) = Throw error ->
  fst (handler JSON_parse e w)
  = Ok (mkResponse 500 json_headers
          (JSON_stringify
             [("message", PStr "Internal server error");
              ("error", PStr (Js.message error))]))
  /\ table (snd (handler JSON_parse e w)) = table w.
Proof.
  intros Hm Hp Hb.
  unfold handler, route, try_catch, bind, console_write.
  rewrite Hm, Hp. cbn [String.eqb Ascii.eqb Bool.eqb andb].
  unfold lift. rewrite Hb. split; reflexivity.
Qed.

(** Whatever is thrown inside the [try] block, the answer is 500 and the
    error's own message is a member of its body. *)
Lemma route_failure_exposed (e : Event) (w w' : World) (error : JsError) :
  String.eqb (httpMethod e) "OPTIONS" = false ->
  route JSON_parse e
    (mkWorld (clock w) (reads w) (CONTACTS_TABLE w) (store_fault w)
       (table w) (console w ++ [LogEvent e]))
  = (Throw error, w') ->
  fst (handler JSON_parse e w)
  = Ok (mkResponse 500 json_headers
          (JSON_stringify
             [("message", PStr "Internal server error");
              ("error", PStr (Js.message error))])).
Proof.
  intros Hm Hr. unfold handler, bind, console_write. rewrite Hm.
  unfold try_catch. rewrite Hr. reflexivity.
Qed.

(** Every request is answered, and none with status 400: the handler has
    no check of the body's fields. *)
Lemma handler_statuses (e : Event) (w : World) :
  exists r : Response,
    fst (handler JSON_parse e w) = Ok r
    /\ (statusCode r = 200 \/ statusCode r = 404 \/ statusCode r = 500).
Proof.
  unfold handler, bind, console_write.
  destruct (String.eqb (httpMethod e) "OPTIONS").
  { eexists; split; [reflexivity|]. now left. }
  unfold try_catch, route.
  destruct (String.eqb (path e) "/health" && String.eqb (httpMethod e) "GET").
  { eexists; split; [reflexivity|]. now left. }
  destruct (String.eqb (path e) "/api/contact"
            && String.eqb (httpMethod e) "POST").
  2:{ eexists; split; [reflexivity|]. right; now left. }
  unfold bind, lift.
  destruct (JSON_parse (body_text e)) as [b|err].
  2:{ eexists; split; [reflexivity|]. right; now right. }
  unfold Date_now, read_clock.
  destruct (get b "name") as [v1|err].
  2:{ eexists; split; [reflexivity|]. right; now right. }
  destruct (get b "email") as [v2|err].
  2:{ eexists; split; [reflexivity|]. right; now right. }
  destruct (get b "subject") as [v3|err].
  2:{ eexists; split; [reflexivity|]. right; now right. }
  destruct (get b "message") as [v4|err].
  2:{ eexists; split; [reflexivity|]. right; now right. }
  unfold new_Date_toISOString, read_clock, bind, ret, env_CONTACTS_TABLE,
    dynamodb_send.
  cbn [clock reads CONTACTS_TABLE store_fault table console].
  match goal with
  | |- context [store_fault w ?c] => destruct (store_fault w c)
  end.
  - eexists; split; [reflexivity|]. right; now right.
  - eexists; split; [reflexivity|]. now left.
Qed.

(** C4, as amended: a GET of /health is answered 200 by the deployed
    handler, the body's status is ok and its timestamp is the clock reading
    in the ISO-8601 form, which [Date.parse] reads back to that reading;
    nothing is stored.  A GET of /api/health is answered 200 only by the
    deployment guide's listing, with the status healthy and a timestamp of
    the same form, and 404 by the deployed handler. *)
Theorem health_check (e : Event) (w : World) :
  httpMethod e = "GET" ->
  IsoDate.four_digit_year (clock w (reads w)) ->
  let now := clock w (reads w) in
  let timestamp := IsoDate.toISOString now in
  IsoDate.Date_parse timestamp = Some now
  /\ (path e = "/health" ->
      fst (handler JSON_parse e w)
      = Ok (mkResponse 200 json_headers
              (JSON_stringify [("status", PStr "ok");
                               ("timestamp", PStr timestamp)]))
      /\ table (snd (handler JSON_parse e w)) = table w)
  /\ (path e = "/api/health" ->
      fst (handler JSON_parse e w)
      = Ok (mkResponse 404 json_headers
              (JSON_stringify [("message", PStr "Not Found")]))
      /\ fst (DeployGuide.handler JSON_parse e w)
         = Ok (mkResponse 200 DeployGuide.headers
                 (JSON_stringify [("status", PStr "healthy");
                                  ("timestamp", PStr timestamp);
                                  ("environment", PStr "production")]))).
Proof.
  intros Hm Ht now timestamp. split.
  { apply IsoDateFacts.Date_parse_toISOString. exact Ht. }
  split; intros Hp.
  - unfold handler, route, try_catch, bind, console_write.
    rewrite Hm, Hp. cbn [String.eqb Ascii.eqb Bool.eqb andb].
    split; reflexivity.
  - split.
    + unfold handler, route, try_catch, bind, console_write.
      rewrite Hm, Hp. cbn [String.eqb Ascii.eqb Bool.eqb andb]. reflexivity.
    + unfold DeployGuide.handler, bind, console_write.
      rewrite Hm, Hp. cbn [String.eqb Ascii.eqb Bool.eqb andb]. reflexivity.
Qed.


End AnyParser.

(** C1, at the failing request: a POST of /api/contact whose body has no
    name.  The deployed handler builds a record with an undefined name and
    sends it to the store: when the store takes it, the record is written
    and the answer is 200; when the document client refuses the undefined
    attribute, nothing is written and the answer is 500.  Neither answer is
    the 400 of the claim. *)
Theorem missing_name_is_stored :
  fst (handler JsonText.JSON_parse nameless_post fresh_world)
  = Ok (mkResponse 200 json_headers
          (JSON_stringify
             [("message", PStr "Contact form submitted successfully");
              ("id", PNum 1700000000000)]))
  /\ table (snd (handler JsonText.JSON_parse nameless_post fresh_world))
     = [mkPut "portfolio-contacts"
          (mkSubmission 1700000000000 Undefined (Str "a@b.com") Undefined
             (Str "hi") "2023-11-14T22:13:20.001Z")]
  /\ fst (handler JsonText.JSON_parse nameless_post strict_world)
     = Ok (mkResponse 500 json_headers
             (JSON_stringify
                [("message", PStr "Internal server error");
                 ("error", PStr (Js.message marshal_error))]))
  /\ table (snd (handler JsonText.JSON_parse nameless_post strict_world))
     = [].
Proof. repeat split; vm_compute; reflexivity. Qed.

(** C2, at the failing request: when the store rejects the write, the
    deployed handler answers 500 and the store's own error message is a
    member of the body. *)
Theorem store_error_reaches_caller :
  fst (handler JsonText.JSON_parse complete_post broken_world)
  = Ok (mkResponse 500 json_headers
          (JSON_stringify
             [("message", PStr "Internal server error");
              ("error", PStr "Requested resource not found")])).
Proof. vm_compute. reflexivity. Qed.

(** C4, as stated, fails: the deployed handler answers a GET of /api/health
    with 404, and the guide's listing, which routes that path, answers a GET
    of /health with 404. *)
Lemma api_health_not_routed :
  fst (handler JsonText.JSON_parse get_api_health fresh_world)
  = Ok (mkResponse 404 json_headers
          (JSON_stringify [("message", PStr "Not Found")]))
  /\ fst (DeployGuide.handler JsonText.JSON_parse get_health fresh_world)
     = Ok (mkResponse 404 DeployGuide.headers
             (JSON_stringify [("error", PStr "Not found")])).
Proof. split; vm_compute; reflexivity. Qed.

(** C4, as amended, at a request: a GET of /health on a clock that reads
    2023-11-14T22:13:20.000Z. *)
Lemma health_check_witness :
  IsoDate.Date_parse (IsoDate.toISOString 1700000000000) = Some 1700000000000
  /\ fst (handler JsonText.JSON_parse get_health fresh_world)
     = Ok (mkResponse 200 json_headers
             (JSON_stringify [("status", PStr "ok");
                              ("timestamp",
                               PStr (IsoDate.toISOString 1700000000000))])).
Proof.
  assert (Hm : httpMethod get_health = "GET") by reflexivity.
  assert (Ht : IsoDate.four_digit_year (clock fresh_world (reads fresh_world)))
    by (unfold IsoDate.four_digit_year, fresh_world, ticking; simpl; lia).
  destruct (health_check JsonText.JSON_parse get_health fresh_world Hm Ht)
    as (Hparse & Hhealth & _).
  split; [exact Hparse|].
  exact (proj1 (Hhealth eq_refl)).
Defined.



End SimpleLambdaFacts.

(* ================================================================== *)
(** * Properties of the handler listed in the deployment guide         *)
(* ================================================================== *)

Module DeployGuideFacts.
Import Runtime DeployGuide Samples.

Section AnyParser.

Variable JSON_parse : string -> Result value.

Lemma destructure_own (b : value) :
  b <> Null -> b <> Undefined ->
  destructure b
  = Ok (own b "name", own b "email", own b "subject", own b "message").
Proof. destruct b; intros; try reflexivity; congruence. Qed.

(** The listing checks the three fields before anything else: a body in
    which name, email or message is absent (or otherwise falsy) is answered
    400, and neither the clock nor the store is touched. *)
Lemma missing_field_rejected (e : Event) (w : World) (b : value) :
  httpMethod e = "POST" -> path e = "/api/contact" ->
  JSON_parse (body_text e) = Ok b -> b <> Null -> b <> Undefined ->
  truthy (own b "name") && truthy (own b "email") && truthy (own b "message")
  = false ->
  handler JSON_parse e w
  = (Ok (mkResponse 400 headers
           (JSON_stringify [("error", PStr "Missing required fields")])),
     mkWorld (clock w) (reads w) (CONTACTS_TABLE w) (store_fault w)
       (table w) (console w ++ [LogEvent e])).
Proof.
  intros Hm Hp Hb Hn Hu Hf.
  unfold handler, bind, console_write.
  rewrite Hm, Hp. cbn [String.eqb Ascii.eqb Bool.eqb andb].
  unfold try_catch, submit, bind, lift. rewrite Hb.
  rewrite destructure_own by assumption.
  replace (negb (truthy (own b "name")) || negb (truthy (own b "email"))
           || negb (truthy (own b "message"))) with true.
  - reflexivity.
  - destruct (truthy (own b "name")), (truthy (own b "email")),
      (truthy (own b "message")); simpl in *; congruence.
Qed.

(** With the three fields present and truthy, one record is written and the
    answer is 200, when the store accepts the write. *)
Lemma complete_submission_stored (e : Event) (w : World) (b : value) :
  httpMethod e = "POST" -> path e = "/api/contact" ->
  JSON_parse (body_text e) = Ok b ->
  truthy (own b "name") && truthy (own b "email") && truthy (own b "message")
  = true ->
  let submission :=
    mkSubmission (clock w (reads w)) (own b "name") (own b "email")
      (or_else (own b "subject") (Str "No subject")) (own b "message")
      (IsoDate.toISOString (clock w (S (reads w)))) in
  let cmd := mkPut "portfolio-contact-submissions" submission in
  store_fault w cmd = None ->
  handler JSON_parse e w
  = (Ok (mkResponse 200 headers
           (JSON_stringify
              [("message", PStr "Contact form submitted successfully");
               ("id", PNum (clock w (reads w)))])),
     mkWorld (clock w) (S (S (reads w))) (CONTACTS_TABLE w) (store_fault w)
       (table w ++ [cmd]) (console w ++ [LogEvent e])).
Proof.
  intros Hm Hp Hb Ht submission cmd Hs.
  assert (Hn : b <> Null) by (intros ->; discriminate Ht).
  assert (Hu : b <> Undefined) by (intros ->; discriminate Ht).
  unfold handler, bind, console_write.
  rewrite Hm, Hp. cbn [String.eqb Ascii.eqb Bool.eqb andb].
  unfold try_catch, submit, bind, lift. rewrite Hb.
  rewrite destructure_own by assumption.
  apply andb_prop in Ht as [Ht Ht3]. apply andb_prop in Ht as [Ht1 Ht2].
  rewrite Ht1, Ht2, Ht3. cbn [negb orb].
  unfold Date_now, new_Date_toISOString, read_clock, bind, ret, dynamodb_send.
  cbn [clock reads CONTACTS_TABLE store_fault table console id].
  fold submission. fold cmd. rewrite Hs. reflexivity.
Qed.

(** Whatever goes wrong inside the contact route, the listing's answer is
    the same fixed text: the error reaches the console only. *)
Lemma failure_is_generic (e : Event) (w w' : World) (error : JsError) :
  submit JSON_parse e w = (Throw error, w') ->
  try_catch (submit JSON_parse e) on_error w
  = (Ok (mkResponse 500 headers
           (JSON_stringify [("error", PStr "Internal server error")])),
     mkWorld (clock w') (reads w') (CONTACTS_TABLE w') (store_fault w')
       (table w') (console w' ++ [LogError error])).
Proof.
  intros H. unfold try_catch. rewrite H. reflexivity.
Qed.

End AnyParser.

End DeployGuideFacts.

(* ================================================================== *)
(** * Properties of the galaxy background                              *)
(* ================================================================== *)

Module GalaxyFacts.
Import Galaxy.
Local Open Scope R_scope.

(** ** Comparisons *)

Lemma leb_true (a b : R) : leb a b = true <-> a <= b.
Proof. unfold leb. destruct (Rle_dec a b); split; intros; try easy. Qed.

Lemma leb_false (a b : R) : leb a b = false <-> b < a.
Proof.
  unfold leb. destruct (Rle_dec a b); split; intros; try easy; lra.
Qed.

Lemma ltb_true (a b : R) : ltb a b = true <-> a < b.
Proof. unfold ltb. destruct (Rlt_dec a b); split; intros; try easy. Qed.

Lemma ltb_false (a b : R) : ltb a b = false <-> b <= a.
Proof.
  unfold ltb. destruct (Rlt_dec a b); split; intros; try easy; lra.
Qed.

(** [gone], as the condition of the source reads. *)
Lemma gone_true (c : Canvas) (s : ShootingStar.t) :
  gone c s = true
  <-> ShootingStar.life s <= 0 \/ ShootingStar.x s > W c
      \/ ShootingStar.y s > H c.
Proof.
  unfold gone. rewrite !orb_true_iff, leb_true, !ltb_true.
  unfold Rgt. tauto.
Qed.

Lemma gone_false (c : Canvas) (s : ShootingStar.t) :
  gone c s = false
  <-> 0 < ShootingStar.life s /\ ShootingStar.x s <= W c
      /\ ShootingStar.y s <= H c.
Proof.
  unfold gone. rewrite !orb_false_iff, leb_false, !ltb_false. tauto.
Qed.

(** ** The loop over the shooting stars *)

Lemma nth_error_middle {A : Type} (done : list A) (a : A) (rest : list A) :
  nth_error (done ++ a :: rest) (List.length done) = Some a.
Proof. induction done as [|d done IH]; simpl; auto. Qed.

Lemma remove_at_middle {A : Type} (done : list A) (a : A) (rest : list A) :
  remove_at (List.length done) (done ++ a :: rest) = (done ++ rest)%list.
Proof.
  induction done as [|d done IH]; simpl; [reflexivity|]. now rewrite IH.
Qed.

Lemma replace_at_middle {A : Type} (done : list A) (a a' : A) (rest : list A) :
  replace_at (List.length done) a' (done ++ a :: rest)
  = (done ++ a' :: rest)%list.
Proof.
  induction done as [|d done IH]; simpl; [reflexivity|]. now rewrite IH.
Qed.

Lemma nth_error_past {A : Type} (l : list A) (i : nat) :
  (List.length l <= i)%nat -> nth_error l i = None.
Proof. apply nth_error_None. Qed.

(** Visits past the end of the array call nothing. *)
Lemma forEach_splice_past (c : Canvas) (visits : nat) :
  forall (index : nat) (array : list ShootingStar.t),
    (List.length array <= index)%nat ->
    forEach_splice visits index c array = array.
Proof.
  induction visits as [|n IH]; intros index array Hlen; simpl; [reflexivity|].
  rewrite nth_error_past by exact Hlen. apply IH. lia.
Qed.

Lemma forEach_splice_sweep (c : Canvas) (visits : nat) :
  forall (done rest : list ShootingStar.t),
    (List.length rest <= visits)%nat ->
    forEach_splice visits (List.length done) c (done ++ rest)
    = (done ++ sweep c rest)%list.
Proof.
  induction visits as [|n IH]; intros done rest Hlen.
  - destruct rest; [reflexivity|simpl in Hlen; lia].
  - destruct rest as [|s rest].
    + simpl sweep. apply forEach_splice_past. rewrite app_nil_r. lia.
    + cbn [forEach_splice]. rewrite nth_error_middle.
      cbn [sweep]. destruct (gone c (advance s)).
      * rewrite remove_at_middle.
        destruct rest as [|skipped rest'].
        -- apply forEach_splice_past. rewrite app_nil_r. lia.
        -- replace (done ++ skipped :: rest')%list
             with ((done ++ [skipped]) ++ rest')%list
             by (rewrite <- app_assoc; reflexivity).
           replace (S (List.length done))
             with (List.length (done ++ [skipped]))
             by (rewrite length_app; simpl; lia).
           rewrite IH by (simpl in Hlen; lia).
           rewrite <- app_assoc. reflexivity.
      * rewrite replace_at_middle.
        replace (done ++ advance s :: rest)%list
          with ((done ++ [advance s]) ++ rest)%list
          by (rewrite <- app_assoc; reflexivity).
        replace (S (List.length done))
          with (List.length (done ++ [advance s]))
          by (rewrite length_app; simpl; lia).
        rewrite IH by (simpl in Hlen; lia).
        rewrite <- app_assoc. reflexivity.
Qed.

(** The loop of the source and its reading as a pass over the list agree. *)
Lemma update_shootingStars_sweep (c : Canvas) (array : list ShootingStar.t) :
  update_shootingStars c array = sweep c array.
Proof.
  unfold update_shootingStars.
  exact (forEach_splice_sweep c (List.length array) [] array (le_n _)).
Qed.

(** ** Loops that fill and walk the arrays *)

Lemma times_length {A : Type} (m : Rand A) (count : nat) :
  forall k : nat, List.length (fst (times count m k)) = count.
Proof.
  induction count as [|n IH]; intros k; [reflexivity|].
  cbn [times]. unfold andThen, pure.
  destruct (m k) as [a k1]. specialize (IH k1).
  destruct (times n m k1) as [rest k2]. simpl in *. now rewrite IH.
Qed.

Lemma times_Forall {A : Type} (P : A -> Prop) (m : Rand A) (count : nat) :
  (forall k : nat, P (fst (m k))) ->
  forall k : nat, Forall P (fst (times count m k)).
Proof.
  intros Hm. induction count as [|n IH]; intros k; [constructor|].
  cbn [times]. unfold andThen, pure.
  specialize (Hm k). destruct (m k) as [a k1]. specialize (IH k1).
  destruct (times n m k1) as [rest k2]. simpl in *. now constructor.
Qed.

Lemma times_drawn {A : Type} (m : Rand A) (each : nat) (count : nat) :
  (forall k : nat, snd (m k) = (each + k)%nat) ->
  forall k : nat, snd (times count m k) = (count * each + k)%nat.
Proof.
  intros Hm. induction count as [|n IH]; intros k; [simpl; lia|].
  cbn [times]. unfold andThen, pure.
  specialize (Hm k). destruct (m k) as [a k1]. specialize (IH k1).
  destruct (times n m k1) as [rest k2]. simpl in *. lia.
Qed.

Lemma times_first {A : Type} (m : Rand A) (count k : nat) :
  exists rest : list A, fst (times (S count) m k) = fst (m k) :: rest.
Proof.
  cbn [times]. unfold andThen, pure.
  destruct (m k) as [a k1]. destruct (times count m k1) as [rest k2].
  now exists rest.
Qed.

(** ** One frame, array by array *)

Section Frames.

Variable random : nat -> R.

Lemma animate_canvas (e : Engine) : canvas (animate random e) = canvas e.
Proof.
  unfold animate. destruct (forEach _ _ _) as [dust n1].
  destruct (createShootingStar _ _ _ _) as [spawned n2]. reflexivity.
Qed.

Lemma animate_stars (e : Engine) :
  stars (animate random e) = map update_star (stars e).
Proof.
  unfold animate. destruct (forEach _ _ _) as [dust n1].
  destruct (createShootingStar _ _ _ _) as [spawned n2]. reflexivity.
Qed.

Lemma animate_nebulaClouds (e : Engine) :
  nebulaClouds (animate random e) = map update_cloud (nebulaClouds e).
Proof.
  unfold animate. destruct (forEach _ _ _) as [dust n1].
  destruct (createShootingStar _ _ _ _) as [spawned n2]. reflexivity.
Qed.

(** The spawn check comes first; the pass over the array follows and takes
    in a star just pushed. *)
Lemma animate_shootingStars (e : Engine) :
  exists k : nat,
    shootingStars (animate random e)
    = sweep (canvas e)
        (fst (createShootingStar random (canvas e) (shootingStars e) k)).
Proof.
  unfold animate. destruct (forEach _ _ _) as [dust n1]. exists n1.
  destruct (createShootingStar _ _ _ _) as [spawned n2].
  cbn [shootingStars fst].
  apply update_shootingStars_sweep.
Qed.

(** What the spawn check leaves in the array. *)
Lemma createShootingStar_cases (c : Canvas) (array : list ShootingStar.t)
  (k : nat) :
  fst (createShootingStar random c array k) = array
  \/ fst (createShootingStar random c array k)
     = (array ++ [ShootingStar.mk (random (1 + k)%nat * W c)
                    (random (2 + k)%nat * H c * 0.5)
                    (random (3 + k)%nat * 8 + 4)
                    (random (4 + k)%nat * 4 + 2)
                    (random (5 + k)%nat * 80 + 50) 1
                    (random (6 + k)%nat * 150 + 80)])%list.
Proof.
  unfold createShootingStar, andThen, Math_random, pure.
  destruct (ltb (random k) 0.008); [right|left]; reflexivity.
Qed.

Lemma run_snoc (events : list Event) (ev : Event) (e : Engine) :
  run random (events ++ [ev]) e = step random (run random events e) ev.
Proof. unfold run. now rewrite fold_left_app. Qed.

(** A property of the state that the first state has and every event keeps
    holds after any events. *)
Lemma run_invariant (Inv : Engine -> Prop) :
  (forall e ev, Inv e -> Inv (step random e ev)) ->
  forall events e, Inv e -> Inv (run random events e).
Proof.
  intros Hstep events. unfold run.
  induction events as [|ev events IH]; intros e He; [exact He|].
  simpl. apply IH, Hstep, He.
Qed.

End Frames.

(** ** Stars *)

Section Stars.

Variable random : nat -> R.
Hypothesis random_range : unit_interval random.

Lemma createStar_twinkling (c : Canvas) (k : nat) :
  twinkling (fst (createStar random c k)).
Proof.
  unfold createStar, andThen, Math_random, pure, twinkling. cbn.
  pose proof (random_range (S (S (S k)))).
  pose proof (random_range (S (S (S (S k))))). lra.
Qed.

Lemma createStar_inside (c : Canvas) (k : nat) :
  inside c (Star.x (fst (createStar random c k)))
    (Star.y (fst (createStar random c k))).
Proof.
  unfold createStar, andThen, Math_random, pure, inside, W, H. cbn.
  pose proof (random_range k). pose proof (random_range (S k)).
  pose proof (pos_INR (width c)). pose proof (pos_INR (height c)). nra.
Qed.

Lemma update_star_twinkling (star : Star.t) :
  twinkling star -> twinkling (update_star star).
Proof. unfold twinkling, update_star. cbn. tauto. Qed.

Lemma init_stars (w h : nat) :
  stars (init random w h)
  = fst (times starCount (createStar random (mkCanvas w h)) 0%nat).
Proof.
  unfold init. destruct (times starCount _ _) as [s n1].
  destruct (times nebulaCount _ _) as [cl n2].
  destruct (times dustCount _ _) as [d n3]. reflexivity.
Qed.

Lemma init_canvas (w h : nat) : canvas (init random w h) = mkCanvas w h.
Proof.
  unfold init. destruct (times starCount _ _) as [s n1].
  destruct (times nebulaCount _ _) as [cl n2].
  destruct (times dustCount _ _) as [d n3]. reflexivity.
Qed.

Lemma step_stars (e : Engine) (ev : Event) :
  stars (step random e ev) = stars e
  \/ stars (step random e ev) = map update_star (stars e).
Proof.
  destruct ev; [right; apply animate_stars|left; reflexivity].
Qed.

Lemma stars_twinkling (w h : nat) (events : list Event) :
  Forall twinkling (stars (run random events (init random w h))).
Proof.
  apply (run_invariant random (fun e => Forall twinkling (stars e))).
  - intros e ev He. destruct (step_stars e ev) as [-> | ->]; [exact He|].
    apply Forall_map. eapply Forall_impl; [|exact He].
    intros s. apply update_star_twinkling.
  - rewrite init_stars. apply times_Forall. intros k.
    apply createStar_twinkling.
Qed.

End Stars.

Lemma currentBrightness_bounds (star : Star.t) :
  twinkling star -> 0 <= currentBrightness star <= Star.brightness star.
Proof.
  unfold twinkling, currentBrightness. intros [Hb _].
  pose proof (SIN_bound (Star.twinklePhase star)). split; nra.
Qed.

(** The alpha depends on the phase only up to whole turns. *)
Lemma currentBrightness_period (star : Star.t) :
  currentBrightness
    (Star.mk (Star.x star) (Star.y star) (Star.size star)
       (Star.brightness star) (Star.twinkleSpeed star)
       (Star.twinklePhase star + 2 * PI) (Star.color star))
  = currentBrightness star.
Proof.
  unfold currentBrightness. cbn.
  replace (Star.twinklePhase star + 2 * PI)
    with (Star.twinklePhase star + 2 * INR 1 * PI) by (simpl; ring).
  now rewrite sin_period.
Qed.

(** C8: after any frames (resizes change nothing here), the alpha computed
    for a star, now and once the next frame has advanced its phase, lies
    between 0 and the star's base brightness: it is the base brightness
    times a sinusoid of the phase; a frame leaves the base brightness alone
    and makes the phase strictly larger, by the star's twinkle speed; the
    phase is never reduced, and the alpha depends on it only modulo 2 pi. *)
Theorem twinkle_bounds (random : nat -> R) (innerWidth innerHeight : nat)
  (events : list Event) :
  unit_interval random ->
  let e := run random events (init random innerWidth innerHeight) in
  Forall (fun star =>
            0 <= currentBrightness star <= Star.brightness star
            /\ 0 <= currentBrightness (update_star star)
               <= Star.brightness star
            /\ currentBrightness star
               = Star.brightness star
                 * (0.5 + 0.5 * sin (Star.twinklePhase star))
            /\ Star.brightness (update_star star) = Star.brightness star
            /\ Star.twinklePhase (update_star star)
               = Star.twinklePhase star + Star.twinkleSpeed star
            /\ Star.twinklePhase star < Star.twinklePhase (update_star star))
    (stars e)
  /\ stars (animate random e) = map update_star (stars e)
  /\ (forall star : Star.t,
        currentBrightness
          (Star.mk (Star.x star) (Star.y star) (Star.size star)
             (Star.brightness star) (Star.twinkleSpeed star)
             (Star.twinklePhase star + 2 * PI) (Star.color star))
        = currentBrightness star).
Proof.
  intros Hr e. split; [|split].
  - eapply Forall_impl; [|apply (stars_twinkling random Hr)].
    intros star Ht. split; [apply currentBrightness_bounds, Ht|].
    split; [apply (currentBrightness_bounds (update_star star)),
              update_star_twinkling, Ht|].
    split; [reflexivity|]. split; [reflexivity|]. split; [reflexivity|].
    destruct Ht as [_ Hs]. cbn. lra.
  - apply animate_stars.
  - apply currentBrightness_period.
Qed.

Lemma steady_unit : unit_interval GalaxySamples.steady.
Proof. intros n. unfold GalaxySamples.steady. lra. Qed.

(** C8, at a run: two frames on a window 1000 by 800. *)
Lemma twinkle_bounds_witness :
  Forall (fun star => 0 <= currentBrightness star <= Star.brightness star)
    (stars (run GalaxySamples.steady [Frame; Frame]
              (init GalaxySamples.steady 1000 800))).
Proof.
  destruct (twinkle_bounds GalaxySamples.steady 1000 800 [Frame; Frame]
              steady_unit) as [Hall _].
  eapply Forall_impl; [|exact Hall]. intros star Hstar. exact (proj1 Hstar).
Defined.

(** ** Nebula clouds *)

Lemma sin_cubic (a : R) : 0 <= a <= 4 -> a - a * a * a / 6 <= sin a.
Proof.
  intros Ha. destruct (pre_sin_bound a 0 (proj1 Ha) (proj2 Ha)) as [Hlow _].
  unfold sin_approx, sin_term in Hlow. simpl in Hlow. lra.
Qed.

Lemma product_sin_sin (t h : R) :
  2 * sin h * sin t = cos (t - h) - cos (t + h).
Proof. rewrite cos_minus, cos_plus. ring. Qed.

Lemma product_sin_cos (t h : R) :
  2 * sin h * cos t = sin (t + h) - sin (t - h).
Proof. rewrite sin_minus, sin_plus. ring. Qed.

(** One frame moves a cloud by at most 0.3 across and 0.2 down. *)
Lemma update_cloud_drift (cloud : NebulaCloud.t) :
  Rabs (NebulaCloud.x (update_cloud cloud) - NebulaCloud.x cloud) <= 0.3
  /\ Rabs (NebulaCloud.y (update_cloud cloud) - NebulaCloud.y cloud) <= 0.2.
Proof.
  unfold update_cloud. cbn.
  pose proof (SIN_bound ((NebulaCloud.pulsePhase cloud + 0.08) * 0.5)).
  pose proof (COS_bound ((NebulaCloud.pulsePhase cloud + 0.08) * 0.3)).
  split; apply Rabs_le; lra.
Qed.

Lemma tethered_refl (cloud : NebulaCloud.t) : tethered cloud cloud.
Proof. unfold tethered. rewrite !Rminus_diag. split; lra. Qed.

(** The moves telescope: the phase advances by 0.08 a frame, so the angle
    of the sine advances by 0.04 and that of the cosine by 0.024. *)
Lemma tethered_step (c0 c1 : NebulaCloud.t) :
  tethered c0 c1 -> tethered c0 (update_cloud c1).
Proof.
  unfold tethered, update_cloud. cbn. intros [Hx Hy].
  set (p := NebulaCloud.pulsePhase c1) in *.
  pose proof (product_sin_sin ((p + 0.08) * 0.5) 0.02) as Hs.
  replace ((p + 0.08) * 0.5 - 0.02) with (p * 0.5 + 0.02) in Hs by lra.
  pose proof (product_sin_cos ((p + 0.08) * 0.3) 0.012) as Hc.
  replace ((p + 0.08) * 0.3 - 0.012) with (p * 0.3 + 0.012) in Hc by lra.
  split; nra.
Qed.

Lemma tethered_near (c0 c1 : NebulaCloud.t) : tethered c0 c1 -> near c0 c1.
Proof.
  unfold tethered, near. intros [Hx Hy].
  pose proof (sin_cubic 0.02 ltac:(lra)) as Hs1.
  pose proof (sin_cubic 0.012 ltac:(lra)) as Hs2.
  pose proof (COS_bound (NebulaCloud.pulsePhase c0 * 0.5 + 0.02)).
  pose proof (COS_bound (NebulaCloud.pulsePhase c1 * 0.5 + 0.02)).
  pose proof (SIN_bound (NebulaCloud.pulsePhase c0 * 0.3 + 0.012)).
  pose proof (SIN_bound (NebulaCloud.pulsePhase c1 * 0.3 + 0.012)).
  split; apply Rabs_le; split; nra.
Qed.

Lemma Forall2_refl {A : Type} (R : A -> A -> Prop) (l : list A) :
  (forall a, R a a) -> Forall2 R l l.
Proof. intros HR. induction l; constructor; auto. Qed.

Lemma Forall2_map_right {A : Type} (R : A -> A -> Prop) (f : A -> A)
  (l0 l1 : list A) :
  (forall a b, R a b -> R a (f b)) ->
  Forall2 R l0 l1 -> Forall2 R l0 (map f l1).
Proof.
  intros Hf H. induction H; simpl; constructor; auto.
Qed.

Section Clouds.

Variable random : nat -> R.

Lemma init_nebulaClouds (w h : nat) :
  nebulaClouds (init random w h)
  = fst (times nebulaCount (createNebulaCloud random (mkCanvas w h))
           (starCount * 7)%nat).
Proof.
  unfold init.
  pose proof (times_drawn (createStar random (mkCanvas w h)) 7 starCount
                (fun k => eq_refl) 0%nat) as Hn.
  destruct (times starCount _ _) as [s n1]. cbn [snd] in Hn.
  rewrite Nat.add_0_r in Hn. subst n1.
  destruct (times nebulaCount _ _) as [cl n2].
  destruct (times dustCount _ _) as [d n3]. reflexivity.
Qed.

Lemma init_shootingStars (w h : nat) : shootingStars (init random w h) = [].
Proof.
  unfold init. destruct (times starCount _ _) as [s n1].
  destruct (times nebulaCount _ _) as [cl n2].
  destruct (times dustCount _ _) as [d n3]. reflexivity.
Qed.

Lemma createNebulaCloud_inside (c : Canvas) (k : nat) :
  unit_interval random ->
  inside c (NebulaCloud.x (fst (createNebulaCloud random c k)))
    (NebulaCloud.y (fst (createNebulaCloud random c k))).
Proof.
  intros Hr.
  unfold createNebulaCloud, andThen, Math_random, pure, inside, W, H. cbn.
  pose proof (Hr k). pose proof (Hr (S k)).
  pose proof (pos_INR (width c)). pose proof (pos_INR (height c)). nra.
Qed.

(** Every event leaves the stars where they were. *)
Lemma run_star_positions (events : list Event) (e : Engine) :
  map Star.x (stars (run random events e)) = map Star.x (stars e)
  /\ map Star.y (stars (run random events e)) = map Star.y (stars e).
Proof.
  apply (run_invariant random
           (fun e' => map Star.x (stars e') = map Star.x (stars e)
                      /\ map Star.y (stars e') = map Star.y (stars e))).
  - intros e' ev [Hx Hy].
    destruct (step_stars random e' ev) as [-> | ->]; [now split|].
    rewrite !map_map. cbn [update_star Star.x Star.y]. now split.
  - now split.
Qed.

Lemma run_counts (events : list Event) (e : Engine) :
  List.length (stars (run random events e)) = List.length (stars e)
  /\ List.length (nebulaClouds (run random events e))
     = List.length (nebulaClouds e).
Proof.
  apply (run_invariant random
           (fun e' => List.length (stars e') = List.length (stars e)
                      /\ List.length (nebulaClouds e')
                         = List.length (nebulaClouds e))).
  - intros e' ev [Hs Hc]. destruct ev; cbn [step].
    + rewrite animate_stars, animate_nebulaClouds, !length_map. now split.
    + now split.
  - now split.
Qed.

Lemma run_tethered (events : list Event) (e : Engine) :
  Forall2 tethered (nebulaClouds e) (nebulaClouds (run random events e)).
Proof.
  apply (run_invariant random
           (fun e' => Forall2 tethered (nebulaClouds e) (nebulaClouds e'))).
  - intros e' ev He'. destruct ev; cbn [step]; [|exact He'].
    rewrite animate_nebulaClouds.
    eapply Forall2_map_right; [|exact He'].
    intros c0 c1. apply tethered_step.
  - apply Forall2_refl. intros c. apply tethered_refl.
Qed.

End Clouds.

(** C7, as amended: stars and nebula clouds persist, 300 and 12 of them
    after any events; a star never moves, so it stays within the canvas it
    was created on; a nebula cloud is created within the canvas and is not
    wrapped at its edges: the frames move it back and forth, never further
    than 15.08 across and 16.69 down from where it was created, so it can
    lie outside the canvas, by that much at most. *)
Theorem stars_and_clouds_persist (random : nat -> R)
  (innerWidth innerHeight : nat) (events : list Event) :
  unit_interval random ->
  let e0 := init random innerWidth innerHeight in
  let e := run random events e0 in
  List.length (stars e) = starCount
  /\ List.length (nebulaClouds e) = nebulaCount
  /\ map Star.x (stars e) = map Star.x (stars e0)
  /\ map Star.y (stars e) = map Star.y (stars e0)
  /\ Forall (fun star => inside (canvas e0) (Star.x star) (Star.y star))
       (stars e0)
  /\ Forall (fun cloud =>
               inside (canvas e0) (NebulaCloud.x cloud) (NebulaCloud.y cloud))
       (nebulaClouds e0)
  /\ Forall2 near (nebulaClouds e0) (nebulaClouds e).
Proof.
  intros Hr e0 e. subst e e0.
  destruct (run_counts random events (init random innerWidth innerHeight))
    as [Hs Hc].
  destruct (run_star_positions random events
              (init random innerWidth innerHeight)) as [Hx Hy].
  split; [|split; [|split; [|split; [|split; [|split]]]]].
  - rewrite Hs, init_stars. apply times_length.
  - rewrite Hc, init_nebulaClouds. apply times_length.
  - exact Hx.
  - exact Hy.
  - rewrite init_stars, init_canvas. apply times_Forall. intros k.
    apply createStar_inside. exact Hr.
  - rewrite init_nebulaClouds, init_canvas. apply times_Forall. intros k.
    apply createNebulaCloud_inside. exact Hr.
  - eapply Forall2_impl; [|apply run_tethered].
    intros c0 c1. apply tethered_near.
Qed.

(** C7, as amended, at a run: two frames with a resize between them. *)
Lemma stars_and_clouds_persist_witness :
  List.length (stars (run GalaxySamples.steady [Frame; Resize 500 400; Frame]
                        (init GalaxySamples.steady 1000 800))) = 300%nat
  /\ List.length
       (nebulaClouds (run GalaxySamples.steady [Frame; Resize 500 400; Frame]
                        (init GalaxySamples.steady 1000 800))) = 12%nat.
Proof.
  destruct (stars_and_clouds_persist GalaxySamples.steady 1000 800
              [Frame; Resize 500 400; Frame] steady_unit)
    as (Hs & Hc & _).
  split; [exact Hs|exact Hc].
Defined.

Lemma PI_above_3 : 3 < PI.
Proof. pose proof PI2_3_2. lra. Qed.

Lemma edge_unit : unit_interval GalaxySamples.edge.
Proof.
  intros n. unfold GalaxySamples.edge.
  destruct (Nat.eqb n 2100); [lra|].
  destruct (Nat.eqb n 2105); [|lra].
  pose proof PI_above_3 as Hpi.
  set (q := (PI - 0.08) / (2 * PI)).
  assert (Hq : q * (2 * PI) = PI - 0.08) by (unfold q; field; lra).
  split; nra.
Qed.

(** C7, as stated, fails: with random numbers that put the first nebula
    cloud at x = 999.9 on a canvas 1000 wide, with a pulse phase of
    pi - 0.08, the first frame moves it to x = 1000.2, past the right edge,
    and nothing wraps it. *)
Lemma cloud_leaves_viewport :
  unit_interval GalaxySamples.edge
  /\ exists cloud : NebulaCloud.t,
       In cloud (nebulaClouds (run GalaxySamples.edge [Frame]
                                 (init GalaxySamples.edge 1000 800)))
       /\ NebulaCloud.x cloud = 1000.2
       /\ W (canvas (run GalaxySamples.edge [Frame]
                       (init GalaxySamples.edge 1000 800))) = 1000.
Proof.
  split; [exact edge_unit|].
  cbn [run fold_left step].
  rewrite animate_nebulaClouds, animate_canvas, init_canvas, init_nebulaClouds.
  destruct (times_first (createNebulaCloud GalaxySamples.edge
                           (mkCanvas 1000 800)) 11 (starCount * 7)%nat)
    as [rest Hfirst].
  change nebulaCount with 12%nat. rewrite Hfirst. cbn [map].
  eexists. split; [left; reflexivity|].
  assert (HW : W (mkCanvas 1000 800) = 1000).
  { unfold W. cbn [width]. rewrite INR_IZR_INZ. reflexivity. }
  split; [|exact HW].
  unfold createNebulaCloud, andThen, Math_random, pure.
  cbn [fst update_cloud NebulaCloud.x NebulaCloud.pulsePhase].
  rewrite HW.
  change (GalaxySamples.edge (starCount * 7)%nat) with 0.9999.
  change (GalaxySamples.edge (S (S (S (S (S (starCount * 7)%nat))))))
    with ((PI - 0.08) / (2 * PI)).
  set (q := (PI - 0.08) / (2 * PI)).
  assert (Hq : q * (2 * PI) = PI - 0.08)
    by (pose proof PI_above_3; unfold q; field; lra).
  replace ((q * PI * 2 + 0.08) * 0.5) with (PI / 2) by nra.
  rewrite sin_PI2. lra.
Qed.

(** [resizeCanvas] sets the size of the canvas and nothing else. *)
Lemma resizeCanvas_keeps_arrays (w h : nat) (e : Engine) :
  stars (resizeCanvas w h e) = stars e
  /\ nebulaClouds (resizeCanvas w h e) = nebulaClouds e
  /\ cosmicDust (resizeCanvas w h e) = cosmicDust e
  /\ shootingStars (resizeCanvas w h e) = shootingStars e
  /\ canvas (resizeCanvas w h e) = mkCanvas w h.
Proof. repeat split. Qed.

Lemma nine_tenths_unit : unit_interval GalaxySamples.nine_tenths.
Proof. intros n. unfold GalaxySamples.nine_tenths. lra. Qed.

(** C3, at the failing input: a window 1000 by 800 is resized to 500 by
    400.  No array is regenerated, and the star created at (900, 720)
    is still there, outside the new canvas. *)
Theorem resize_keeps_old_positions :
  let before := init GalaxySamples.nine_tenths 1000 800 in
  let after := run GalaxySamples.nine_tenths [Resize 500 400] before in
  stars after = stars before
  /\ nebulaClouds after = nebulaClouds before
  /\ shootingStars after = shootingStars before
  /\ W (canvas after) = 500 /\ H (canvas after) = 400
  /\ exists star : Star.t,
       In star (stars after) /\ Star.x star = 900 /\ Star.y star = 720.
Proof.
  cbn [run fold_left step].
  split; [reflexivity|]. split; [reflexivity|]. split; [reflexivity|].
  split; [|split].
  - unfold W. cbn [resizeCanvas canvas width].
    rewrite INR_IZR_INZ. reflexivity.
  - unfold H. cbn [resizeCanvas canvas height].
    rewrite INR_IZR_INZ. reflexivity.
  - cbn [resizeCanvas stars]. rewrite init_stars.
    destruct (times_first (createStar GalaxySamples.nine_tenths
                             (mkCanvas 1000 800)) 299 0%nat)
      as [rest Hfirst].
    change starCount with 300%nat. rewrite Hfirst.
    eexists. split; [left; reflexivity|].
    unfold createStar, andThen, Math_random, pure, W, H,
      GalaxySamples.nine_tenths.
    cbn [fst Star.x Star.y width height]. rewrite !INR_IZR_INZ.
    split.
    + replace (IZR (Z.of_nat 1000)) with 1000 by reflexivity. lra.
    + replace (IZR (Z.of_nat 800)) with 800 by reflexivity. lra.
Qed.

(** ** Shooting stars *)

(** Induction along [sweep]. *)
Lemma sweep_induction (c : Canvas)
  (P : list ShootingStar.t -> list ShootingStar.t -> Prop) :
  P [] [] ->
  (forall s, gone c (advance s) = true -> P [s] []) ->
  (forall s skipped rest,
      gone c (advance s) = true ->
      P rest (sweep c rest) ->
      P (s :: skipped :: rest) (skipped :: sweep c rest)) ->
  (forall s rest,
      gone c (advance s) = false ->
      P rest (sweep c rest) ->
      P (s :: rest) (advance s :: sweep c rest)) ->
  forall l, P l (sweep c l).
Proof.
  intros Hnil Hlast Hskip Hkeep l.
  assert (H : forall n l, (List.length l <= n)%nat -> P l (sweep c l)).
  { clear l. induction n as [|n IH]; intros l Hlen.
    - destruct l; [exact Hnil|simpl in Hlen; lia].
    - destruct l as [|s rest]; [exact Hnil|].
      cbn [sweep]. destruct (gone c (advance s)) eqn:Hg.
      + destruct rest as [|skipped rest']; [now apply Hlast|].
        apply Hskip; [exact Hg|]. apply IH. simpl in Hlen. lia.
      + apply Hkeep; [exact Hg|]. apply IH. simpl in Hlen. lia. }
  exact (H (List.length l) l (le_n _)).
Qed.

(** After a removal the star that follows is passed over: this frame
    neither moves it nor shortens its life. *)
Lemma sweep_skips_next (c : Canvas) (s next : ShootingStar.t)
  (rest : list ShootingStar.t) :
  gone c (advance s) = true ->
  update_shootingStars c (s :: next :: rest)
  = next :: update_shootingStars c rest.
Proof.
  intros Hg. rewrite !update_shootingStars_sweep. cbn [sweep].
  now rewrite Hg.
Qed.

Lemma advance_launched (c : Canvas) (s : ShootingStar.t) :
  launched s -> gone c (advance s) = false -> launched (advance s).
Proof.
  unfold launched. intros (Hl & Hvx & Hvy & Hx & Hy) Hg.
  apply gone_false in Hg. destruct Hg as (Hl' & _ & _).
  revert Hl'. unfold advance. cbn. intros Hl'. repeat split; lra.
Qed.

Lemma sweep_launched (c : Canvas) (l : list ShootingStar.t) :
  Forall launched l -> Forall launched (sweep c l).
Proof.
  apply (sweep_induction c
           (fun l l' => Forall launched l -> Forall launched l')).
  - auto.
  - auto.
  - intros s skipped rest _ IH H. inversion H as [|? ? _ H1]; subst.
    inversion H1; subst. constructor; auto.
  - intros s rest Hg IH H. inversion H; subst.
    constructor; [now apply (advance_launched c)|auto].
Qed.

Lemma sweep_length (c : Canvas) (l : list ShootingStar.t) :
  (List.length (sweep c l) <= List.length l)%nat.
Proof.
  apply (sweep_induction c
           (fun l l' => (List.length l' <= List.length l)%nat));
    intros; simpl in *; lia.
Qed.

(** A pass takes at least half a unit of weight off every star it finds. *)
Lemma sweep_weight (c : Canvas) (l : list ShootingStar.t) :
  Forall launched l ->
  weight (sweep c l) <= weight l - INR (List.length l) / 2.
Proof.
  apply (sweep_induction c
           (fun l l' => Forall launched l ->
                        weight l' <= weight l - INR (List.length l) / 2)).
  - intros _. simpl. lra.
  - intros s _ H. inversion H as [|? ? Hs _]; subst.
    destruct Hs as (Hl & _). simpl. lra.
  - intros s skipped rest _ IH H. inversion H as [|? ? Hs H1]; subst.
    inversion H1; subst. destruct Hs as (Hl & _).
    specialize (IH ltac:(assumption)).
    cbn [weight List.length]. rewrite !S_INR. lra.
  - intros s rest _ IH H. inversion H as [|? ? Hs H1]; subst.
    specialize (IH H1).
    cbn [weight List.length advance ShootingStar.life]. rewrite S_INR. lra.
Qed.

Lemma weight_bounds (l : list ShootingStar.t) :
  Forall launched l ->
  INR (List.length l) <= weight l <= 231 * INR (List.length l).
Proof.
  induction 1 as [|s rest Hs _ IH].
  - simpl. lra.
  - destruct Hs as (Hl & _). cbn [weight List.length]. rewrite S_INR. lra.
Qed.

Lemma weight_app (l : list ShootingStar.t) (s : ShootingStar.t) :
  weight (l ++ [s]) = weight l + (ShootingStar.life s + 1).
Proof.
  induction l as [|a l IH]; cbn [app weight]; [lra|]. rewrite IH. lra.
Qed.

(** The most weight the array ever carries. *)
Lemma full_weight_value : 231 * INR 461 = 106491.
Proof. rewrite INR_IZR_INZ. cbn [Z.of_nat Pos.of_succ_nat Pos.succ]. lra. Qed.

Section ShootingStars.

Variable random : nat -> R.
Hypothesis random_range : unit_interval random.



Lemma spawn_launched (c : Canvas) (k : nat) :
  launched (ShootingStar.mk (random (1 + k)%nat * W c)
              (random (2 + k)%nat * H c * 0.5)
              (random (3 + k)%nat * 8 + 4)
              (random (4 + k)%nat * 4 + 2)
              (random (5 + k)%nat * 80 + 50) 1
              (random (6 + k)%nat * 150 + 80)).
Proof.
  unfold launched, W, H. cbn.
  pose proof (random_range (S k)).
  pose proof (random_range (S (S k))).
  pose proof (random_range (S (S (S k)))).
  pose proof (random_range (S (S (S (S k))))).
  pose proof (random_range (S (S (S (S (S (S k))))))).
  pose proof (pos_INR (width c)). pose proof (pos_INR (height c)).
  repeat split; nra.
Qed.

(** The array after the spawn check: launched stars still, at most one more
    of them, at most 231 more weight. *)
Lemma createShootingStar_launched (c : Canvas) (array : list ShootingStar.t)
  (k : nat) :
  Forall launched array ->
  let spawned := fst (createShootingStar random c array k) in
  Forall launched spawned
  /\ (List.length spawned <= List.length array + 1)%nat
  /\ weight spawned <= weight array + 231.
Proof.
  intros Ha spawned. subst spawned.
  destruct (createShootingStar_cases random c array k) as [-> | ->].
  - split; [exact Ha|]. split; [lia|lra].
  - pose proof (spawn_launched c k) as Hs.
    split; [apply Forall_app; split; [exact Ha|now constructor]|].
    split; [rewrite length_app; simpl; lia|].
    rewrite weight_app. destruct Hs as (Hl & _). cbn in Hl |- *. lra.
Qed.

(** What every state of a run satisfies. *)
Lemma shootingStars_invariant (w h : nat) (events : list Event) :
  let array := shootingStars (run random events (init random w h)) in
  Forall launched array /\ weight array <= 106491.
Proof.
  apply (run_invariant random
           (fun e => Forall launched (shootingStars e)
                     /\ weight (shootingStars e) <= 106491)).
  - intros e [|w' h'] [Hl Hw]; [|split; assumption].
    cbn [step]. destruct (animate_shootingStars random e) as [k ->].
    destruct (createShootingStar_launched (canvas e) (shootingStars e) k Hl)
      as (Hl1 & Hn1 & Hw1).
    set (spawned := fst (createShootingStar random (canvas e)
                           (shootingStars e) k)) in *.
    split; [now apply sweep_launched|].
    destruct (le_lt_dec 462 (List.length spawned)) as [Hmany|Hfew].
    + pose proof (sweep_weight (canvas e) spawned Hl1) as Hsw.
      apply le_INR in Hmany.
      replace (INR 462) with 462 in Hmany
        by (rewrite INR_IZR_INZ; reflexivity).
      lra.
    + pose proof (weight_bounds _ (sweep_launched (canvas e) spawned Hl1))
        as [_ Hub].
      pose proof (sweep_length (canvas e) spawned) as Hlen.
      assert (Hle : (List.length (sweep (canvas e) spawned) <= 461)%nat) by lia.
      apply le_INR in Hle. pose proof full_weight_value. lra.
  - rewrite init_shootingStars. split; [constructor|simpl; lra].
Qed.

End ShootingStars.

(** C5, at the failing input: two shooting stars are in flight and the
    first is on its last frame.  The loop removes the first, and the second
    is passed over: the frame leaves it exactly as it was, its life still
    50, where a visit would have brought it to 49. *)
Theorem follower_is_skipped :
  update_shootingStars GalaxySamples.viewport
    [GalaxySamples.dying; GalaxySamples.follower]
  = [GalaxySamples.follower]
  /\ shootingStars (animate GalaxySamples.steady GalaxySamples.two_in_flight)
     = [GalaxySamples.follower]
  /\ ShootingStar.life GalaxySamples.follower = 50
  /\ ShootingStar.life (advance GalaxySamples.follower) = 49.
Proof.
  assert (Hloop : update_shootingStars GalaxySamples.viewport
                    [GalaxySamples.dying; GalaxySamples.follower]
                  = [GalaxySamples.follower]).
  { change [GalaxySamples.follower]
      with (GalaxySamples.follower
              :: update_shootingStars GalaxySamples.viewport []).
    apply sweep_skips_next. apply gone_true. left. cbn. lra. }
  split; [exact Hloop|]. split; [|split; [reflexivity|cbn; lra]].
  unfold animate, GalaxySamples.two_in_flight.
  cbn [canvas cosmicDust stars nebulaClouds shootingStars drawn forEach pure].
  unfold createShootingStar, andThen, Math_random, GalaxySamples.steady.
  replace (ltb 0.5 0.008) with false by (symmetry; apply ltb_false; lra).
  cbn [pure shootingStars]. exact Hloop.
Qed.

Lemma animate_remove_then_spawn_shootingStars (random : nat -> R)
  (e : Engine) :
  exists k : nat,
    shootingStars (animate_remove_then_spawn random e)
    = fst (createShootingStar random (canvas e)
             (sweep (canvas e) (shootingStars e)) k).
Proof.
  unfold animate_remove_then_spawn.
  destruct (forEach _ _ _) as [dust n1]. exists n1.
  rewrite update_shootingStars_sweep.
  destruct (createShootingStar _ _ _ _) as [shooting n2]. reflexivity.
Qed.

Lemma eager_unit : unit_interval GalaxySamples.eager.
Proof. intros n. unfold GalaxySamples.eager. lra. Qed.

(** With [eager] every spawn check passes, and pushes the same star. *)
Lemma eager_spawns (c : Canvas) (array : list ShootingStar.t) (k : nat) :
  fst (createShootingStar GalaxySamples.eager c array k)
  = (array ++ [ShootingStar.mk (0.005 * W c) (0.005 * H c * 0.5)
                 (0.005 * 8 + 4) (0.005 * 4 + 2) (0.005 * 80 + 50) 1
                 (0.005 * 150 + 80)])%list.
Proof.
  unfold createShootingStar, andThen, Math_random, pure, GalaxySamples.eager.
  replace (ltb 0.005 0.008) with true by (symmetry; apply ltb_true; lra).
  reflexivity.
Qed.

Lemma viewport_size :
  W (mkCanvas 1000 800) = 1000 /\ H (mkCanvas 1000 800) = 800.
Proof. unfold W, H. cbn [width height]. rewrite !INR_IZR_INZ. now split. Qed.

(** C6, as stated, fails: in the first frame of a run whose spawn check
    passes, the star pushed at x = 5 has already been moved to x = 9.04 and
    has lost a unit of life when the frame ends, because the pass over the
    array comes after the spawn check; with the removal first and the spawn
    check after it, as the claim has it, the star would end the frame at
    x = 5 with its life untouched. *)
Lemma spawned_star_moves_at_once :
  unit_interval GalaxySamples.eager
  /\ map (fun s => (ShootingStar.x s, ShootingStar.life s))
       (shootingStars (animate GalaxySamples.eager
                         (init GalaxySamples.eager 1000 800)))
     = [(9.04, 79.75)]
  /\ map (fun s => (ShootingStar.x s, ShootingStar.life s))
       (shootingStars (animate_remove_then_spawn GalaxySamples.eager
                         (init GalaxySamples.eager 1000 800)))
     = [(5, 80.75)].
Proof.
  split; [exact eager_unit|].
  destruct viewport_size as [HW HH].
  split.
  - destruct (animate_shootingStars GalaxySamples.eager
                (init GalaxySamples.eager 1000 800)) as [k ->].
    rewrite init_canvas, init_shootingStars, eager_spawns.
    cbn [app sweep]. rewrite HW, HH.
    match goal with
    | |- context [gone ?c ?s] =>
        replace (gone c s) with false
          by (symmetry; apply gone_false; rewrite HW, HH; cbn; lra)
    end.
    cbn. f_equal. f_equal; lra.
  - destruct (animate_remove_then_spawn_shootingStars GalaxySamples.eager
                (init GalaxySamples.eager 1000 800)) as [k ->].
    rewrite init_canvas, init_shootingStars. cbn [sweep].
    rewrite eager_spawns. rewrite HW, HH. cbn. f_equal. f_equal; lra.
Qed.

(** C6, as amended: in every frame the spawn check comes first and the
    pass that moves, ages and removes shooting stars comes after it, over
    the array with the star just pushed; the pass runs every frame, leaves
    no star whose life is used up, and lets the array grow by one star a
    frame at most; the array stays bounded: it never holds more than 106491
    stars. *)
Theorem spawn_then_sweep (random : nat -> R) (innerWidth innerHeight : nat)
  (events : list Event) :
  unit_interval random ->
  let e := run random events (init random innerWidth innerHeight) in
  (exists k : nat,
      shootingStars (animate random e)
      = update_shootingStars (canvas e)
          (fst (createShootingStar random (canvas e) (shootingStars e) k)))
  /\ (List.length (shootingStars (animate random e))
      <= List.length (shootingStars e) + 1)%nat
  /\ Forall (fun s => 0 < ShootingStar.life s) (shootingStars e)
  /\ (Z.of_nat (List.length (shootingStars e)) <= 106491)%Z.
Proof.
  intros Hr e.
  destruct (shootingStars_invariant random Hr innerWidth innerHeight events)
    as [Hl Hw]. fold e in Hl, Hw.
  destruct (animate_shootingStars random e) as [k Hk].
  split; [exists k; now rewrite update_shootingStars_sweep|].
  split; [|split].
  - rewrite Hk.
    destruct (createShootingStar_launched random Hr (canvas e)
                (shootingStars e) k Hl) as (_ & Hn & _).
    pose proof (sweep_length (canvas e)
                  (fst (createShootingStar random (canvas e)
                          (shootingStars e) k))). lia.
  - eapply Forall_impl; [|exact Hl]. intros s Hs. apply Hs.
  - apply le_IZR. rewrite <- INR_IZR_INZ.
    pose proof (weight_bounds _ Hl) as [Hlow _]. lra.
Qed.

(** C6, as amended, at a run: three frames, each of which spawns. *)
Lemma spawn_then_sweep_witness :
  (Z.of_nat (List.length
               (shootingStars
                  (run GalaxySamples.eager [Frame; Frame; Frame]
                     (init GalaxySamples.eager 1000 800))))
   <= 106491)%Z.
Proof.
  exact (proj2 (proj2 (proj2
           (spawn_then_sweep GalaxySamples.eager 1000 800
              [Frame; Frame; Frame] eager_unit)))).
Defined.







End GalaxyFacts.

(* ================================================================== *)
(** * Further properties of server/simple-lambda.js                    *)
(* ================================================================== *)

Module SimpleLambdaExtras.
Import Runtime SimpleLambda Samples MoreSamples.

(** Every path through [handler], one goal each. *)
Ltac handler_paths JSON_parse e w :=
  unfold handler, bind, console_write;
  destruct (String.eqb (httpMethod e) "OPTIONS") eqn:Hoptions;
  [ | unfold try_catch, route;
      destruct (String.eqb (path e) "/health"
                && String.eqb (httpMethod e) "GET") eqn:Hhealth;
      [ | destruct (String.eqb (path e) "/api/contact"
                    && String.eqb (httpMethod e) "POST") eqn:Hcontact;
          [ unfold bind, lift;
            destruct (JSON_parse (body_text e)) as [b|parse_error] eqn:Hparse;
            [ unfold Date_now, read_clock;
              destruct (get b "name") as [v1|error1];
              [ destruct (get b "email") as [v2|error2];
                [ destruct (get b "subject") as [v3|error3];
                  [ destruct (get b "message") as [v4|error4];
                    [ unfold new_Date_toISOString, read_clock, bind, ret,
                        env_CONTACTS_TABLE, dynamodb_send;
                      cbn [clock reads CONTACTS_TABLE store_fault table
                             console];
                      match goal with
                      | |- context [store_fault w ?c] =>
                          destruct (store_fault w c) as [store_error|]
                            eqn:Hstore
                      end
                    | ]
                  | ]
                | ]
              | ]
            | ]
          | ]
      ]
  ];
  unfold on_error, new_Date_toISOString, read_clock, bind, ret, console_write;
  cbn [fst snd clock reads CONTACTS_TABLE store_fault table console
         statusCode headers response_body].

(** Closes a goal whose hypotheses put the request on two routes. *)
Ltac route_clash :=
  repeat match goal with
         | H : andb _ _ = true |- _ => apply andb_prop in H; destruct H
         | H : andb _ _ = false |- _ =>
             apply andb_false_iff in H; destruct H
         | H : String.eqb _ _ = true |- _ => apply String.eqb_eq in H
         | H : String.eqb _ _ = false |- _ => apply String.eqb_neq in H
         end;
  congruence.

Section AnyParser.

Variable JSON_parse : string -> Result value.

(** A preflight request, whatever its path and body, is answered 200 with an
    empty body and the three cross-origin headers; it reads no clock, parses
    nothing and leaves the store alone. *)
Theorem preflight_answer (e : Event) (w : World) :
  httpMethod e = "OPTIONS" ->
  handler JSON_parse e w
  = (Ok (mkResponse 200 cors_headers ""),
     mkWorld (clock w) (reads w) (CONTACTS_TABLE w) (store_fault w)
       (table w) (console w ++ [LogEvent e]))
  /\ map fst cors_headers
     = ["Access-Control-Allow-Origin"; "Access-Control-Allow-Headers";
        "Access-Control-Allow-Methods"].
Proof.
  intros Hm. unfold handler, bind, console_write. rewrite Hm.
  split; reflexivity.
Qed.

(** A request that is neither a preflight, nor a GET of /health, nor a POST
    of /api/contact is answered 404 with the message Not Found; the clock
    and the store are not touched. *)
Theorem unmatched_route_is_404 (e : Event) (w : World) :
  httpMethod e <> "OPTIONS" ->
  ~ (path e = "/health" /\ httpMethod e = "GET") ->
  ~ (path e = "/api/contact" /\ httpMethod e = "POST") ->
  handler JSON_parse e w
  = (Ok (mkResponse 404 json_headers
           (JSON_stringify [("message", PStr "Not Found")])),
     mkWorld (clock w) (reads w) (CONTACTS_TABLE w) (store_fault w)
       (table w) (console w ++ [LogEvent e])).
Proof.
  intros Ho Hh Hc. unfold handler, bind, console_write.
  replace (String.eqb (httpMethod e) "OPTIONS") with false
    by (symmetry; now apply String.eqb_neq).
  unfold try_catch, route.
  replace (String.eqb (path e) "/health" && String.eqb (httpMethod e) "GET")
    with false.
  2:{ symmetry. apply not_true_is_false. intros H.
      apply andb_prop in H as [H1 H2].
      apply String.eqb_eq in H1, H2. now apply Hh. }
  replace (String.eqb (path e) "/api/contact"
           && String.eqb (httpMethod e) "POST") with false.
  2:{ symmetry. apply not_true_is_false. intros H.
      apply andb_prop in H as [H1 H2].
      apply String.eqb_eq in H1, H2. now apply Hc. }
  reflexivity.
Qed.

(** Every request is answered, and every answer carries the three
    cross-origin headers; every answer but the preflight's also says that
    its body is JSON. *)
Theorem every_answer_has_cors_headers (e : Event) (w : World) :
  exists r : Response,
    fst (handler JSON_parse e w) = Ok r
    /\ (forall h, In h cors_headers -> In h (headers r))
    /\ (String.eqb (httpMethod e) "OPTIONS" = false ->
        In ("Content-Type", "application/json") (headers r)).
Proof.
  handler_paths JSON_parse e w;
    (eexists; split; [reflexivity|]; cbn [headers]; unfold json_headers;
     split; [intros h Hh; try exact Hh; apply in_or_app; now left
            |intros Hne; try discriminate Hne;
             apply in_or_app; right; now left]).
Qed.

(** The store only grows, by one record a call at most, and only a POST of
    /api/contact that is answered 200 makes it grow: the record goes to the
    table the environment names, its id and its creation time are the two
    readings of the clock, and the answer carries the id.  The clock, the
    environment and the store's behaviour are never changed. *)
Theorem store_only_grows (e : Event) (w : World) :
  let out := handler JSON_parse e w in
  clock (snd out) = clock w
  /\ CONTACTS_TABLE (snd out) = CONTACTS_TABLE w
  /\ store_fault (snd out) = store_fault w
  /\ ((table (snd out) = table w
       /\ forall r, fst out = Ok r ->
                    path e = "/api/contact" -> httpMethod e = "POST" ->
                    statusCode r = 500)
      \/ exists cmd : PutCommand,
           table (snd out) = (table w ++ [cmd])%list
           /\ path e = "/api/contact" /\ httpMethod e = "POST"
           /\ TableName cmd = table_name (CONTACTS_TABLE w)
           /\ id (Item cmd) = clock w (reads w)
           /\ createdAt (Item cmd)
              = IsoDate.toISOString (clock w (S (reads w)))
           /\ fst out
              = Ok (mkResponse 200 json_headers
                      (JSON_stringify
                         [("message",
                           PStr "Contact form submitted successfully");
                          ("id", PNum (id (Item cmd)))]))).
Proof.
  cbv zeta.
  handler_paths JSON_parse e w;
    (split; [reflexivity|]; split; [reflexivity|]; split; [reflexivity|]).
  all: try (left; split; [reflexivity|];
            intros r Hr Hp Hm; first [now inversion Hr|route_clash]).
  right. eexists. split; [reflexivity|].
  apply andb_prop in Hcontact as [Hp Hm].
  apply String.eqb_eq in Hp, Hm. repeat split; assumption.
Qed.

(** The console gets the event of every call, first; it gets an error
    exactly when the answer is 500, and then the error whose message the
    answer carries. *)
Theorem console_discipline (e : Event) (w : World) :
  let out := handler JSON_parse e w in
  exists r : Response,
    fst out = Ok r
    /\ ((console (snd out) = (console w ++ [LogEvent e])%list
         /\ statusCode r <> 500)
        \/ exists error : JsError,
             console (snd out)
             = (console w ++ [LogEvent e; LogError error])%list
             /\ statusCode r = 500
             /\ response_body r
                = JSON_stringify
                    [("message", PStr "Internal server error");
                     ("error", PStr (Js.message error))]).
Proof.
  cbv zeta.
  handler_paths JSON_parse e w;
    (eexists; split; [reflexivity|]);
    try (left; split; [reflexivity|cbn; discriminate]);
    (right; eexists; rewrite <- app_assoc; cbn [app];
     split; [reflexivity|split; reflexivity]).
Qed.


(** A body that is the JSON text null is answered 500: reading its name
    throws, after the clock has been read for the id; nothing is written.
    A body that is a number, a string, a boolean or an array has no field:
    the record is sent with its four fields undefined. *)
Theorem body_that_is_no_object (e : Event) (w : World) (b : value) :
  httpMethod e = "POST" -> path e = "/api/contact" ->
  JSON_parse (body_text e) = Ok b ->
  (forall props, b <> Obj props) -> b <> Undefined ->
  let out := handler JSON_parse e w in
  (b = Null ->
   table (snd out) = table w /\ reads (snd out) = S (reads w)
   /\ exists r, fst out = Ok r /\ statusCode r = 500)
  /\ (b <> Null ->
      (forall cmd, store_fault w cmd = None) ->
      table (snd out)
      = (table w
         ++ [mkPut (table_name (CONTACTS_TABLE w))
               (mkSubmission (clock w (reads w)) Undefined Undefined
                  Undefined Undefined
                  (IsoDate.toISOString (clock w (S (reads w)))))])%list).
Proof.
  intros Hm Hp Hparse Hobj Hundef out. subst out. split.
  - intros ->. unfold handler, route, try_catch, bind, console_write.
    rewrite Hm, Hp. cbn [String.eqb Ascii.eqb Bool.eqb andb].
    unfold lift. rewrite Hparse. cbn.
    split; [reflexivity|]. split; [reflexivity|].
    eexists. split; reflexivity.
  - intros Hnull Hstore.
    rewrite (SimpleLambdaFacts.post_contact_stored JSON_parse e w b
               Hm Hp Hparse Hnull Hundef (Hstore _)).
    cbn [snd table].
    assert (Hown : forall k, own b k = Undefined).
    { intros k. destruct b; try reflexivity. now destruct (Hobj props). }
    now rewrite !Hown.
Qed.

(** The two time stamps of a stored record come from two readings of the
    clock, the id from the first and the creation time from the second,
    and a call that stores a record reads the clock just these two times:
    [Date.parse] reads the second reading back from the text stored (for a
    time whose year has four digits), and when the clock does not run
    backwards the id is no later than it. *)
Theorem created_at_reads_back (e : Event) (w : World) (cmd : PutCommand) :
  IsoDate.four_digit_year (clock w (S (reads w))) ->
  clock w (reads w) <= clock w (S (reads w)) ->
  table (snd (handler JSON_parse e w)) = (table w ++ [cmd])%list ->
  IsoDate.Date_parse (createdAt (Item cmd)) = Some (clock w (S (reads w)))
  /\ (forall t, IsoDate.Date_parse (createdAt (Item cmd)) = Some t ->
                id (Item cmd) <= t)
  /\ reads (snd (handler JSON_parse e w)) = S (S (reads w)).
Proof.
  intros Hyear Hmono.
  assert (Hgrow : forall l (c d : PutCommand),
             (l ++ [c] = l ++ [d])%list -> c = d).
  { intros l c d H. apply app_inv_head in H. now inversion H. }
  assert (Hsame : forall l (c : PutCommand), l <> (l ++ [c])%list).
  { intros l c H. apply (f_equal (@List.length _)) in H.
    rewrite length_app in H. simpl in H. lia. }
  handler_paths JSON_parse e w; intros Htable;
    try (exfalso; exact (Hsame _ _ Htable)).
  apply Hgrow in Htable. subst cmd. cbn [Item createdAt id].
  rewrite (IsoDateFacts.Date_parse_toISOString _ Hyear).
  split; [reflexivity|]. split; [|reflexivity].
  intros t Ht. inversion Ht; subst. exact Hmono.
Qed.

End AnyParser.

(** A preflight for the contact route, in a world with earlier writes. *)
Lemma preflight_answer_witness :
  fst (handler JsonText.JSON_parse preflight used_world)
  = Ok (mkResponse 200 cors_headers "")
  /\ table (snd (handler JsonText.JSON_parse preflight used_world))
     = table used_world.
Proof.
  pose proof (proj1 (preflight_answer JsonText.JSON_parse preflight used_world
                       eq_refl)) as H.
  rewrite H. split; reflexivity.
Defined.

(** A GET of /api/unknown. *)
Lemma unmatched_route_is_404_witness :
  fst (handler JsonText.JSON_parse get_unknown used_world)
  = Ok (mkResponse 404 json_headers
          (JSON_stringify [("message", PStr "Not Found")])).
Proof.
  rewrite (unmatched_route_is_404 JsonText.JSON_parse get_unknown used_world
             ltac:(discriminate)
             ltac:(intros [H _]; discriminate H)
             ltac:(intros [H _]; discriminate H)).
  reflexivity.
Defined.


(** A POST of /api/contact whose body is the text null. *)
Lemma body_that_is_no_object_witness :
  table (snd (handler JsonText.JSON_parse null_post used_world))
  = table used_world
  /\ reads (snd (handler JsonText.JSON_parse null_post used_world)) = 5%nat.
Proof.
  destruct (proj1 (body_that_is_no_object JsonText.JSON_parse null_post
                     used_world Null eq_refl eq_refl eq_refl
                     ltac:(discriminate) ltac:(discriminate)) eq_refl)
    as (Htable & Hreads & _).
  split; [exact Htable|exact Hreads].
Defined.

(** A complete form, on the reference parser and the ticking clock. *)
Lemma created_at_reads_back_witness :
  IsoDate.Date_parse "2023-11-14T22:13:20.001Z" = Some 1700000000001.
Proof.
  exact (proj1 (created_at_reads_back JsonText.JSON_parse complete_post
                  fresh_world
                  (mkPut "portfolio-contacts"
                     (mkSubmission 1700000000000 (Str "A") (Str "a@b.com")
                        Undefined (Str "hi") "2023-11-14T22:13:20.001Z"))
                  ltac:(unfold IsoDate.four_digit_year, fresh_world, ticking;
                        simpl; lia)
                  ltac:(unfold fresh_world, ticking; simpl; lia)
                  ltac:(vm_compute; reflexivity))).
Defined.

End SimpleLambdaExtras.

(* ================================================================== *)
(** * Further properties of the handler listed in the deployment guide *)
(* ================================================================== *)

Module DeployGuideExtras.
Import Runtime DeployGuide Samples MoreSamples.

(** Every path through the listing's [handler], one goal each. *)
Ltac guide_paths JSON_parse e w :=
  unfold handler, bind, console_write;
  destruct (String.eqb (httpMethod e) "OPTIONS") eqn:Hoptions;
  [ | destruct (String.eqb (httpMethod e) "GET"
                && String.eqb (path e) "/api/health") eqn:Hhealth;
      [ | destruct (String.eqb (httpMethod e) "POST"
                    && String.eqb (path e) "/api/contact") eqn:Hcontact;
          [ unfold try_catch, submit, bind, lift;
            destruct (JSON_parse (body_text e)) as [b|parse_error] eqn:Hparse;
            [ destruct (destructure b) as [[[[v1 v2] v3] v4]|type_error]
                eqn:Hfields;
              [ destruct (negb (truthy v1) || negb (truthy v2)
                          || negb (truthy v4)) eqn:Hmissing;
                [ | unfold Date_now, new_Date_toISOString, read_clock, bind,
                      ret, dynamodb_send;
                    cbn [clock reads CONTACTS_TABLE store_fault table
                           console];
                    match goal with
                    | |- context [store_fault w ?c] =>
                        destruct (store_fault w c) as [store_error|]
                          eqn:Hstore
                    end ]
              | ]
            | ]
          | ]
      ]
  ];
  unfold on_error, new_Date_toISOString, read_clock, bind, ret, console_write;
  cbn [fst snd clock reads CONTACTS_TABLE store_fault table console
         statusCode headers response_body].

Lemma or_else_truthy (v : value) : truthy (or_else v (Str "No subject")) = true.
Proof. unfold or_else. destruct (truthy v) eqn:H; [exact H|reflexivity]. Qed.

Section AnyParser.

Variable JSON_parse : string -> Result value.

(** The listing's answer is one of six texts, fixed by the route, by how
    the call ended and by the clock: nothing of the request's body and
    nothing of an error is ever part of it. *)
Theorem answers_are_fixed_texts (e : Event) (w : World) :
  let now := clock w (reads w) in
  In (fst (handler JSON_parse e w))
    [ Ok (mkResponse 200 headers "");
      Ok (mkResponse 200 headers
            (JSON_stringify
               [("status", PStr "healthy");
                ("timestamp", PStr (IsoDate.toISOString now));
                ("environment", PStr "production")]));
      Ok (mkResponse 200 headers
            (JSON_stringify
               [("message", PStr "Contact form submitted successfully");
                ("id", PNum now)]));
      Ok (mkResponse 400 headers
            (JSON_stringify [("error", PStr "Missing required fields")]));
      Ok (mkResponse 500 headers
            (JSON_stringify [("error", PStr "Internal server error")]));
      Ok (mkResponse 404 headers
            (JSON_stringify [("error", PStr "Not found")])) ].
Proof.
  cbv zeta. guide_paths JSON_parse e w; cbn [In]; tauto.
Qed.

(** Whatever the listing writes is complete: the store only grows, by one
    record a call at most, and a record written has a truthy name, email,
    subject and message (a missing or empty subject has become the text
    No subject), carries the clock's reading as its id, and goes to the
    table portfolio-contact-submissions. *)
Theorem written_records_are_complete (e : Event) (w : World) :
  let out := handler JSON_parse e w in
  table (snd out) = table w
  \/ exists cmd : PutCommand,
       table (snd out) = (table w ++ [cmd])%list
       /\ TableName cmd = "portfolio-contact-submissions"
       /\ id (Item cmd) = clock w (reads w)
       /\ truthy (name (Item cmd)) = true
       /\ truthy (email (Item cmd)) = true
       /\ truthy (subject (Item cmd)) = true
       /\ truthy (message (Item cmd)) = true
       /\ (subject (Item cmd) = Str "No subject"
           \/ exists b, JSON_parse (body_text e) = Ok b
                        /\ subject (Item cmd) = own b "subject").
Proof.
  cbv zeta. guide_paths JSON_parse e w; try (left; reflexivity).
  right. eexists. split; [reflexivity|].
  cbn [TableName Item id name email subject message].
  apply orb_false_elim in Hmissing as [Hmissing H4].
  apply orb_false_elim in Hmissing as [H1 H2].
  apply negb_false_iff in H1, H2, H4.
  repeat split; try assumption; try apply or_else_truthy.
  unfold or_else. destruct (truthy v3); [right|now left].
  exists b. split; [reflexivity|].
  destruct b; cbn in Hfields; try discriminate; now inversion Hfields.
Qed.

(** The listing's check is the truthiness of the three fields, and it comes
    before everything else: the answer is 400 exactly when name, email or
    message is absent, empty, null, false or zero, and then neither the
    clock nor the store is touched and no error is logged. *)
Theorem validation_is_truthiness (e : Event) (w : World) (b : value) :
  httpMethod e = "POST" -> path e = "/api/contact" ->
  JSON_parse (body_text e) = Ok b -> b <> Null -> b <> Undefined ->
  let out := handler JSON_parse e w in
  exists r : Response,
    fst out = Ok r
    /\ (statusCode r = 400
        <-> truthy (own b "name") && truthy (own b "email")
            && truthy (own b "message") = false)
    /\ (statusCode r = 400 ->
        snd out
        = mkWorld (clock w) (reads w) (CONTACTS_TABLE w) (store_fault w)
            (table w) (console w ++ [LogEvent e])).
Proof.
  intros Hm Hp Hparse Hnull Hundef out. subst out.
  destruct (truthy (own b "name") && truthy (own b "email")
            && truthy (own b "message")) eqn:Hall.
  - apply andb_prop in Hall as [Hall H3]. apply andb_prop in Hall as [H1 H2].
    unfold handler, bind, console_write.
    rewrite Hm, Hp. cbn [String.eqb Ascii.eqb Bool.eqb andb].
    unfold try_catch, submit, bind, lift. rewrite Hparse.
    rewrite (DeployGuideFacts.destructure_own b Hnull Hundef).
    rewrite H1, H2, H3. cbn [negb orb].
    unfold Date_now, new_Date_toISOString, read_clock, bind, ret,
      dynamodb_send.
    cbn [clock reads CONTACTS_TABLE store_fault table console].
    match goal with
    | |- context [store_fault w ?c] => destruct (store_fault w c)
    end;
      (eexists; split; [reflexivity|]; cbn [statusCode];
       split; [split; intros H; discriminate H|intros H; discriminate H]).
  - rewrite (DeployGuideFacts.missing_field_rejected JSON_parse e w b
               Hm Hp Hparse Hnull Hundef Hall).
    eexists. split; [reflexivity|]. cbn [statusCode snd].
    split; [split; reflexivity|reflexivity].
Qed.

(** A POST of /api/contact that has no body is answered 500, not 400: the
    listing parses the missing body to null, and taking the fields of null
    apart throws before the check is reached.  Nothing is written. *)
Theorem bodyless_post_is_500 (e : Event) (w : World) :
  httpMethod e = "POST" -> path e = "/api/contact" -> body e = None ->
  JSON_parse "null" = Ok Null ->
  let out := handler JSON_parse e w in
  fst out
  = Ok (mkResponse 500 headers
          (JSON_stringify [("error", PStr "Internal server error")]))
  /\ table (snd out) = table w
  /\ reads (snd out) = reads w.
Proof.
  intros Hm Hp Hbody Hparse out. subst out.
  unfold handler, bind, console_write.
  rewrite Hm, Hp. cbn [String.eqb Ascii.eqb Bool.eqb andb].
  unfold try_catch, submit, bind, lift, body_text.
  rewrite Hbody, Hparse. cbn. repeat split.
Qed.

End AnyParser.

(** The form sent with an empty name: the field is there, and falsy. *)
Lemma validation_is_truthiness_witness :
  exists r : Response,
    fst (handler JsonText.JSON_parse empty_name_post used_world) = Ok r
    /\ statusCode r = 400.
Proof.
  assert (Hparse : JsonText.JSON_parse (body_text empty_name_post)
                   = Ok (Obj [("name", Str ""); ("email", Str "a@b.com");
                              ("subject", Str ""); ("message", Str "hi")]))
    by (vm_compute; reflexivity).
  destruct (validation_is_truthiness JsonText.JSON_parse empty_name_post
              used_world _ eq_refl eq_refl Hparse
              ltac:(discriminate) ltac:(discriminate))
    as (r & Hr & Hstatus & _).
  exists r. split; [exact Hr|]. apply Hstatus. reflexivity.
Defined.

(** A POST of /api/contact with no body, on the reference parser. *)
Lemma bodyless_post_is_500_witness :
  fst (handler JsonText.JSON_parse bodyless_post used_world)
  = Ok (mkResponse 500 headers
          (JSON_stringify [("error", PStr "Internal server error")])).
Proof.
  exact (proj1 (bodyless_post_is_500 JsonText.JSON_parse bodyless_post
                  used_world eq_refl eq_refl eq_refl eq_refl)).
Defined.

End DeployGuideExtras.

(* ================================================================== *)
(** * Further properties of the galaxy background                      *)
(* ================================================================== *)

Module GalaxyExtras.
Import Galaxy GalaxyDraw GalaxyFacts.
Local Open Scope R_scope.

(** ** The loop over the shooting stars *)

Lemma sweep_Forall (c : Canvas) (P : ShootingStar.t -> Prop)
  (l : list ShootingStar.t) :
  (forall s, P s -> gone c (advance s) = false -> P (advance s)) ->
  Forall P l -> Forall P (sweep c l).
Proof.
  intros Hadv.
  apply (sweep_induction c (fun l l' => Forall P l -> Forall P l')).
  - auto.
  - auto.
  - intros s skipped rest _ IH H. inversion H as [|? ? _ H1]; subst.
    inversion H1; subst. constructor; auto.
  - intros s rest Hg IH H. inversion H; subst. constructor; auto.
Qed.

Lemma sweep_all_kept (c : Canvas) (l : list ShootingStar.t) :
  Forall (fun s => gone c (advance s) = false) l ->
  sweep c l = map advance l.
Proof.
  induction 1 as [|s rest Hs _ IH]; [reflexivity|].
  cbn [sweep map]. now rewrite Hs, IH.
Qed.

Lemma sweep_origin (c : Canvas) (l : list ShootingStar.t) :
  Forall (fun s' => In s' l
                    \/ exists s, In s l /\ s' = advance s
                                 /\ gone c s' = false)
    (sweep c l).
Proof.
  apply (sweep_induction c
           (fun l l' =>
              Forall (fun s' => In s' l
                                \/ exists s, In s l /\ s' = advance s
                                             /\ gone c s' = false) l')).
  - constructor.
  - constructor.
  - intros s skipped rest _ IH. constructor.
    + left. right. now left.
    + eapply Forall_impl; [|exact IH]. intros s' [Hin|(s0 & Hin & He & Hg)].
      * left. right. now right.
      * right. exists s0. split; [right; now right|]. now split.
  - intros s rest Hg IH. constructor.
    + right. exists s. split; [now left|]. now split.
    + eapply Forall_impl; [|exact IH]. intros s' [Hin|(s0 & Hin & He & Hg')].
      * left. now right.
      * right. exists s0. split; [now right|]. now split.
Qed.

(** The loop with [splice] inside [forEach]: when the frame removes no
    star, every star is moved and aged exactly once; in general the array
    never grows, keeps its order, and holds after the loop only stars that
    were visited and kept, or stars it passed over and left as they were;
    a star at the front of the array is never passed over. *)
Theorem splice_loop_outcome (c : Canvas) (array : list ShootingStar.t) :
  (Forall (fun s => gone c (advance s) = false) array ->
   update_shootingStars c array = map advance array)
  /\ (List.length (update_shootingStars c array) <= List.length array)%nat
  /\ Forall (fun s' => In s' array
                       \/ exists s, In s array /\ s' = advance s
                                    /\ gone c s' = false)
       (update_shootingStars c array)
  /\ (forall first rest,
        array = first :: rest ->
        gone c (advance first) = false ->
        exists rest', update_shootingStars c array = advance first :: rest').
Proof.
  rewrite update_shootingStars_sweep.
  split; [apply sweep_all_kept|]. split; [apply sweep_length|].
  split; [apply sweep_origin|].
  intros first rest -> Hg. cbn [sweep]. rewrite Hg. now eexists.
Qed.



(** ** Loops with a callback that draws random numbers *)

Lemma forEach_Forall2 {A : Type} (R : A -> A -> Prop) (f : A -> Rand A)
  (l : list A) :
  (forall a k, R a (fst (f a k))) ->
  forall k : nat, Forall2 R l (fst (forEach f l k)).
Proof.
  intros Hf. induction l as [|a rest IH]; intros k; [constructor|].
  cbn [forEach]. unfold andThen, pure.
  specialize (Hf a k). destruct (f a k) as [a' k1]. specialize (IH k1).
  destruct (forEach f rest k1) as [rest' k2]. simpl in *. now constructor.
Qed.


Lemma Forall2_map_left {A : Type} (R : A -> A -> Prop) (f : A -> A)
  (l l' : list A) :
  Forall2 R (map f l) l' -> Forall2 (fun a b => R (f a) b) l l'.
Proof.
  revert l'. induction l as [|a rest IH]; intros l' H; inversion H; subst;
    constructor; auto.
Qed.

Lemma Forall2_weaken {A : Type} (R R' : A -> A -> Prop) (l l' : list A) :
  (forall a b, R a b -> R' a b) -> Forall2 R l l' -> Forall2 R' l l'.
Proof. intros HR H. induction H; constructor; auto. Qed.

(** ** Cosmic dust *)

Section Dust.

Variable random : nat -> R.

Lemma animate_cosmicDust (e : Engine) :
  cosmicDust (animate random e)
  = fst (forEach (update_dust random (canvas e)) (cosmicDust e) (drawn e)).
Proof.
  unfold animate. destruct (forEach _ _ _) as [dust n1].
  destruct (createShootingStar _ _ _ _) as [spawned n2]. reflexivity.
Qed.


Lemma wrap_inside (limit x : R) :
  0 <= limit ->
  let x1 := if ltb x 0 then limit else x in
  let x2 := if ltb limit x1 then 0 else x1 in
  0 <= x2 <= limit
  /\ (0 <= x <= limit -> x2 = x)
  /\ (x < 0 -> x2 = limit)
  /\ (limit < x -> x2 = 0).
Proof.
  intros Hl x1 x2. subst x1 x2.
  destruct (ltb x 0) eqn:H0.
  - apply ltb_true in H0.
    destruct (ltb limit limit) eqn:H1;
      [apply ltb_true in H1; lra|].
    repeat split; intros; lra.
  - apply ltb_false in H0.
    destruct (ltb limit x) eqn:H1;
      [apply ltb_true in H1|apply ltb_false in H1];
      repeat split; intros; lra.
Qed.

Lemma update_dust_drifted (c : Canvas) (dust : CosmicDust.t) (k : nat) :
  drifted c dust (fst (update_dust random c dust k)).
Proof.
  pose proof (wrap_inside (W c) (CosmicDust.x dust + CosmicDust.vx dust)
                (pos_INR (width c))) as Hx.
  pose proof (wrap_inside (H c) (CosmicDust.y dust + CosmicDust.vy dust)
                (pos_INR (height c))) as Hy.
  cbv zeta in Hx, Hy.
  destruct Hx as (Hx0 & Hx1 & Hx2 & Hx3).
  destruct Hy as (Hy0 & Hy1 & Hy2 & Hy3).
  unfold drifted, inside, update_dust, andThen, Math_random, pure.
  cbv zeta.
  destruct (leb (CosmicDust.life dust - 1) 0);
    cbn [fst CosmicDust.x CosmicDust.y CosmicDust.vx CosmicDust.vy
         CosmicDust.size CosmicDust.maxLife];
    repeat split; tauto.
Qed.

Hypothesis random_range : unit_interval random.





End Dust.

(** The dust loop keeps the number of particles. *)
Lemma dust_wraps_around_aux (random : nat -> R) (e : Engine) :
  Forall2 (drifted (canvas e)) (cosmicDust e) (cosmicDust (animate random e))
  /\ List.length (cosmicDust (animate random e)) = List.length (cosmicDust e).
Proof.
  assert (H2 : Forall2 (drifted (canvas e)) (cosmicDust e)
                 (cosmicDust (animate random e))).
  { rewrite animate_cosmicDust. apply forEach_Forall2.
    intros a k. apply update_dust_drifted. }
  split; [exact H2|]. symmetry. eapply Forall2_length. exact H2.
Qed.

(** Cosmic dust never leaves the canvas, whatever the state and the random
    numbers: a frame moves every particle by its velocity, puts one that
    went past an edge on the opposite edge, and leaves it within the canvas
    as it is at that frame (so also a particle left outside by a shrunken
    window is back inside after one frame); no particle is added or
    removed, and velocity, size and maximal life are never changed. *)
Theorem dust_wraps_around (random : nat -> R) (e : Engine) :
  Forall2 (drifted (canvas e)) (cosmicDust e) (cosmicDust (animate random e))
  /\ List.length (cosmicDust (animate random e)) = List.length (cosmicDust e)
  /\ forall w h : nat,
       cosmicDust (resizeCanvas w h e) = cosmicDust e.
Proof.
  destruct (dust_wraps_around_aux random e) as [H2 Hlen].
  split; [exact H2|]. split; [exact Hlen|reflexivity].
Qed.



(** ** Colours and gradient stops *)

Lemma Int_part_range (x : R) (n : Z) :
  0 <= x < IZR n -> (0 <= Int_part x < n)%Z.
Proof.
  intros [H0 Hn]. destruct (base_Int_part x) as [Hle Hgt]. split.
  - assert (Hlt : (-1 < Int_part x)%Z) by (apply lt_IZR; lra). lia.
  - apply lt_IZR. lra.
Qed.

Lemma pick_In (colors : list string) (r : R) :
  List.length colors = 5%nat -> 0 <= r < 1 -> In (pick colors r) colors.
Proof.
  intros Hlen Hr. unfold pick. apply nth_In. rewrite Hlen.
  assert (Hi : (0 <= Int_part (r * 5) < 5)%Z)
    by (apply Int_part_range; lra).
  lia.
Qed.







Section Palettes.

Variable random : nat -> R.
Hypothesis random_range : unit_interval random.



Lemma createStar_colour (c : Canvas) (k : nat) :
  In (Star.color (fst (createStar random c k))) star_colors.
Proof.
  exact (pick_In star_colors (random (S (S (S (S (S (S k)))))))
           eq_refl (random_range _)).
Qed.

Lemma run_star_colours (w h : nat) (events : list Event) :
  Forall (fun star => In (Star.color star) star_colors)
    (stars (run random events (init random w h))).
Proof.
  apply (run_invariant random
           (fun e => Forall (fun star => In (Star.color star) star_colors)
                       (stars e))).
  - intros e ev He.
    destruct (step_stars random e ev) as [-> | ->]; [exact He|].
    apply Forall_map. eapply Forall_impl; [|exact He].
    intros s Hs. exact Hs.
  - rewrite init_stars. apply times_Forall. intros k.
    apply createStar_colour.
Qed.

End Palettes.



(** The alpha suffix outside that range: an opacity of 1.01 gives three
    digits and a negative one a sign, neither of which makes a colour. *)
Lemma alpha_hex_needs_range :
  toString16 257 = "101"%string
  /\ padStart2 (toString16 (-3)) = "-3"%string
  /\ hex_colour 8 ("#4b0082" ++ padStart2 (toString16 257)) = false
  /\ hex_colour 8 ("#4b0082" ++ padStart2 (toString16 (-3))) = false
  /\ padStart2 (toString16 10) = "0a"%string.
Proof. repeat split; reflexivity. Qed.

(** With [Math.random()] in [0, 1), every star of every state has a
    colour of the star palette, which no frame and no resize changes, and
    the three colour stops of its glow are colours the canvas can parse:
    the star's own six-digit colour, and that colour with the alpha
    suffixes 80 and 00. *)
Theorem star_glow_colours (random : nat -> R)
  (innerWidth innerHeight : nat) (events : list Event) :
  unit_interval random ->
  Forall (fun star =>
            In (Star.color star) star_colors
            /\ exists c1 c2 c3,
                 glow_stops star = [(0, c1); (0.2, c2); (1, c3)]
                 /\ hex_colour 6 c1 = true
                 /\ hex_colour 8 c2 = true
                 /\ hex_colour 8 c3 = true)
    (stars (run random events (init random innerWidth innerHeight))).
Proof.
  intros Hr.
  eapply Forall_impl;
    [|exact (run_star_colours random Hr innerWidth innerHeight events)].
  intros star Hc. split; [exact Hc|].
  unfold glow_stops. do 3 eexists. split; [reflexivity|].
  unfold star_colors in Hc. cbn [In] in Hc.
  destruct Hc as [<-|[<-|[<-|[<-|[<-|[]]]]]]; repeat split; reflexivity.
Qed.

(** At a run: a frame and a resize. *)
Lemma star_glow_colours_witness :
  Forall (fun star => In (Star.color star) star_colors)
    (stars (run GalaxySamples.steady [Frame; Resize 640 480]
              (init GalaxySamples.steady 1000 800))).
Proof.
  eapply Forall_impl;
    [|exact (star_glow_colours GalaxySamples.steady 1000 800
               [Frame; Resize 640 480] steady_unit)].
  intros star Hstar. exact (proj1 Hstar).
Defined.

(** ** Phases and rotation after a number of frames *)

Lemma twinkled_step (n : nat) (star star' : Star.t) :
  twinkled n (update_star star) star' -> twinkled (S n) star star'.
Proof.
  unfold twinkled, update_star.
  cbn [Star.x Star.y Star.size Star.brightness Star.twinkleSpeed
       Star.twinklePhase Star.color].
  intros ->. now rewrite Nat.iter_succ_r.
Qed.

Lemma pulsed_step (n : nat) (cloud cloud' : NebulaCloud.t) :
  pulsed n (update_cloud cloud) cloud' -> pulsed (S n) cloud cloud'.
Proof.
  unfold pulsed, update_cloud.
  cbn [NebulaCloud.radius NebulaCloud.opacity NebulaCloud.rotation
       NebulaCloud.rotationSpeed NebulaCloud.pulsePhase NebulaCloud.color].
  intros (Hr & Ho & Hs & Hc & Hrot & Hp).
  rewrite !Nat.iter_succ_r. repeat split; assumption.
Qed.

Lemma twinkled_zero (star : Star.t) : twinkled 0 star star.
Proof. unfold twinkled. now destruct star. Qed.

Lemma pulsed_zero (cloud : NebulaCloud.t) : pulsed 0 cloud cloud.
Proof. unfold pulsed. repeat split. Qed.

(** Stars and clouds after any events, from any state: only the frames
    count, and by their number alone.  After events with n frames among
    them a star is the star it was with its twinkle speed added to its
    phase n times over, one addition after the other; a cloud has its
    radius, opacity, rotation speed and colour, and has had its rotation
    speed added to its rotation, and 0.08 to its pulse phase, n times
    over; resizes change neither. *)
Theorem phases_count_the_frames (random : nat -> R) (events : list Event)
  (e : Engine) :
  let n := frames events in
  Forall2 (twinkled n) (stars e) (stars (run random events e))
  /\ Forall2 (pulsed n) (nebulaClouds e)
       (nebulaClouds (run random events e)).
Proof.
  cbv zeta. revert e.
  induction events as [|ev events IH]; intros e.
  - split; apply Forall2_refl;
      [apply twinkled_zero|apply pulsed_zero].
  - change (run random (ev :: events) e)
      with (run random events (step random e ev)).
    destruct (IH (step random e ev)) as [Hs Hc].
    destruct ev as [|w h].
    + cbn [frames]. cbn [step] in Hs, Hc.
      rewrite animate_stars in Hs. rewrite animate_nebulaClouds in Hc.
      split.
      * eapply Forall2_weaken; [|apply Forall2_map_left; exact Hs].
        intros a b. apply twinkled_step.
      * eapply Forall2_weaken; [|apply Forall2_map_left; exact Hc].
        intros a b. apply pulsed_step.
    + cbn [frames]. split; assumption.
Qed.

(** ** Trails and opacities of the shooting stars *)

Lemma advance_trailing (s : ShootingStar.t) :
  trailing s -> trailing (advance s).
Proof.
  unfold trailing, advance. cbn. intros [Hlen _]. split; [exact Hlen|].
  now right.
Qed.

Section Trails.

Variable random : nat -> R.
Hypothesis random_range : unit_interval random.

Lemma createShootingStar_trailing (c : Canvas)
  (array : list ShootingStar.t) (k : nat) :
  Forall trailing array ->
  Forall trailing (fst (createShootingStar random c array k)).
Proof.
  intros Ha.
  destruct (createShootingStar_cases random c array k) as [-> | ->];
    [exact Ha|].
  apply Forall_app. split; [exact Ha|]. constructor; [|constructor].
  unfold trailing. cbn.
  pose proof (random_range (S (S (S (S (S k)))))).
  split; [lra|now left].
Qed.

Lemma run_trailing (w h : nat) (events : list Event) :
  Forall trailing (shootingStars (run random events (init random w h))).
Proof.
  apply (run_invariant random
           (fun e => Forall trailing (shootingStars e))).
  - intros e [|w' h'] He; [|exact He]. cbn [step].
    destruct (animate_shootingStars random e) as [k ->].
    apply sweep_Forall.
    + intros s Hs _. now apply advance_trailing.
    + now apply createShootingStar_trailing.
  - rewrite init_shootingStars. constructor.
Qed.

End Trails.

(** With [Math.random()] in [0, 1), every shooting star in the array has
    a trail length in [50, 130] and an opacity that is either the 1 it was
    pushed with or a hundredth of its life, hence above 0 and at most 2.3:
    above 1 as long as the life is above 100.  The trail
    [drawShootingStar] strokes reaches back from the head by 40 to 312
    across and by 20 to 156 down, so that it ends up and to the left of
    the head; and a star the loop has just visited has the opacity
    life / 100 and the length it had. *)
Theorem shooting_star_trail (random : nat -> R)
  (innerWidth innerHeight : nat) (events : list Event) :
  unit_interval random ->
  Forall (fun s =>
            trailing s
            /\ 0 < ShootingStar.opacity s <= 2.3
            /\ 40 <= fst (trail_reach s) <= 312
            /\ 20 <= snd (trail_reach s) <= 156
            /\ fst (trail_end s) < ShootingStar.x s
            /\ snd (trail_end s) < ShootingStar.y s)
    (shootingStars (run random events (init random innerWidth innerHeight)))
  /\ forall s : ShootingStar.t,
       ShootingStar.opacity (advance s) = ShootingStar.life (advance s) / 100
       /\ ShootingStar.length (advance s) = ShootingStar.length s.
Proof.
  intros Hr. split; [|intros s; split; reflexivity].
  pose proof (run_trailing random Hr innerWidth innerHeight events) as Ht.
  pose proof (shootingStars_invariant random Hr innerWidth innerHeight
                events) as [Hl _].
  revert Ht Hl.
  generalize (shootingStars
                (run random events (init random innerWidth innerHeight))).
  intros l Ht. induction Ht as [|s rest Hs _ IH]; intros Hl;
    [constructor|].
  inversion Hl as [|? ? Hls Hlrest]; subst.
  constructor; [|now apply IH].
  split; [exact Hs|].
  destruct Hs as [Hlen Hop].
  destruct Hls as (Hlife & Hvx & Hvy & _).
  unfold trail_end, trail_reach. cbn [fst snd].
  split; [destruct Hop as [-> | ->]; lra|].
  repeat split; nra.
Qed.

(** At a run: three frames, each of which spawns. *)
Lemma shooting_star_trail_witness :
  Forall trailing
    (shootingStars (run GalaxySamples.eager [Frame; Frame; Frame]
                      (init GalaxySamples.eager 1000 800))).
Proof.
  eapply Forall_impl;
    [|exact (proj1 (shooting_star_trail GalaxySamples.eager 1000 800
                      [Frame; Frame; Frame] eager_unit))].
  intros s Hs. exact (proj1 Hs).
Defined.

End GalaxyExtras.

(* ================================================================== *)
(** * Properties of the contact form                                   *)
(* ================================================================== *)

Module ContactFormExtras.
Import Js ContactForm.

Lemma eqb_neq_sym (a b : string) : a <> b -> String.eqb b a = false.
Proof. intros H. apply String.eqb_neq. congruence. Qed.

Lemma lookup_set_same (k : string) (v : value)
  (props : list (string * value)) :
  lookup k (JsonText.set_prop k v props) = v.
Proof.
  induction props as [|[k' v'] rest IH]; cbn [JsonText.set_prop lookup].
  - now rewrite String.eqb_refl.
  - destruct (String.eqb k k') eqn:Hk; cbn [lookup].
    + now rewrite String.eqb_refl.
    + now rewrite Hk.
Qed.

Lemma lookup_set_other (k other : string) (v : value)
  (props : list (string * value)) :
  other <> k ->
  lookup other (JsonText.set_prop k v props) = lookup other props.
Proof.
  intros Hne.
  induction props as [|[k' v'] rest IH]; cbn [JsonText.set_prop lookup].
  - apply String.eqb_neq in Hne. now rewrite Hne.
  - destruct (String.eqb k k') eqn:Hk; cbn [lookup].
    + apply String.eqb_eq in Hk. subst k'.
      apply String.eqb_neq in Hne. now rewrite Hne.
    + destruct (String.eqb other k'); [reflexivity|exact IH].
Qed.

Lemma set_present_keys (k : string) (v : value)
  (props : list (string * value)) :
  In k (map fst props) ->
  map fst (JsonText.set_prop k v props) = map fst props.
Proof.
  induction props as [|[k' v'] rest IH]; [intros []|].
  cbn [JsonText.set_prop map fst In].
  destruct (String.eqb k k') eqn:Hk.
  - apply String.eqb_eq in Hk. now subst k'.
  - intros [He|Hin]; [apply String.eqb_neq in Hk; congruence|].
    cbn [map fst]. now rewrite IH.
Qed.

Lemma set_absent_appends (k : string) (v : value)
  (props : list (string * value)) :
  ~ In k (map fst props) ->
  JsonText.set_prop k v props = (props ++ [(k, v)])%list.
Proof.
  induction props as [|[k' v'] rest IH]; [reflexivity|].
  cbn [JsonText.set_prop map fst In app]. intros Hn.
  destruct (String.eqb k k') eqn:Hk.
  - apply String.eqb_eq in Hk. subst k'. exfalso. apply Hn. now left.
  - rewrite IH; [reflexivity|]. intros Hin. apply Hn. now right.
Qed.

Lemma set_twice (k : string) (v v' : value)
  (props : list (string * value)) :
  JsonText.set_prop k v' (JsonText.set_prop k v props)
  = JsonText.set_prop k v' props.
Proof.
  induction props as [|[k0 v0] rest IH]; cbn [JsonText.set_prop].
  - now rewrite String.eqb_refl.
  - destruct (String.eqb k k0) eqn:Hk; cbn [JsonText.set_prop].
    + now rewrite String.eqb_refl.
    + now rewrite Hk, IH.
Qed.

Lemma set_commutes (k1 k2 : string) (v1 v2 : value)
  (props : list (string * value)) :
  k1 <> k2 -> In k1 (map fst props) -> In k2 (map fst props) ->
  JsonText.set_prop k1 v1 (JsonText.set_prop k2 v2 props)
  = JsonText.set_prop k2 v2 (JsonText.set_prop k1 v1 props).
Proof.
  intros Hne.
  induction props as [|[k0 v0] rest IH]; [intros []|].
  cbn [map fst In JsonText.set_prop]. intros H1 H2.
  destruct (String.eqb k2 k0) eqn:E2; destruct (String.eqb k1 k0) eqn:E1;
    cbn [JsonText.set_prop].
  - apply String.eqb_eq in E1, E2. congruence.
  - apply String.eqb_eq in E2. subst k0.
    now rewrite (eqb_neq_sym k2 k1), String.eqb_refl by congruence.
  - apply String.eqb_eq in E1. subst k0.
    now rewrite String.eqb_refl, (eqb_neq_sym k1 k2) by congruence.
  - rewrite E1, E2. f_equal. apply IH.
    + destruct H1 as [He|Hin]; [|exact Hin].
      apply String.eqb_neq in E1. congruence.
    + destruct H2 as [He|Hin]; [|exact Hin].
      apply String.eqb_neq in E2. congruence.
Qed.

(** ** Keys that are array indices *)

Lemma has_key_In (k : string) (props : FormData) :
  has_key k props = true <-> In k (map fst props).
Proof.
  unfold has_key. rewrite existsb_exists. split.
  - intros [p [Hin Heq]]. apply String.eqb_eq in Heq. subst k.
    now apply in_map.
  - intros Hin. apply in_map_iff in Hin. destruct Hin as [p [Hfst Hin]].
    exists p. split; [exact Hin|]. apply String.eqb_eq. now symmetry.
Qed.

Lemma has_key_absent (k : string) (props : FormData) :
  has_key k props = false <-> ~ In k (map fst props).
Proof.
  rewrite <- has_key_In. destruct (has_key k props); split; intros H;
    try reflexivity; try discriminate; try (intros H'; discriminate H').
  exfalso. now apply H.
Qed.

Lemma lookup_insert_same (i : N) (k : string) (v : value)
  (props : FormData) :
  ~ In k (map fst props) -> lookup k (insert_index i k v props) = v.
Proof.
  induction props as [|[k' v'] rest IH];
    cbn [insert_index lookup map fst In]; intros Hn.
  - now rewrite String.eqb_refl.
  - destruct (array_index k') as [j|];
      [destruct (i <? j)%N|]; cbn [lookup];
      try (now rewrite String.eqb_refl).
    replace (String.eqb k k') with false
      by (symmetry; apply String.eqb_neq; intros ->; apply Hn; now left).
    apply IH. intros Hin. apply Hn. now right.
Qed.

Lemma lookup_insert_other (i : N) (k other : string) (v : value)
  (props : FormData) :
  other <> k ->
  lookup other (insert_index i k v props) = lookup other props.
Proof.
  intros Hne. apply String.eqb_neq in Hne.
  induction props as [|[k' v'] rest IH]; cbn [insert_index lookup].
  - now rewrite Hne.
  - destruct (array_index k') as [j|];
      [destruct (i <? j)%N|]; cbn [lookup]; rewrite ?Hne;
      try reflexivity.
    destruct (String.eqb other k'); [reflexivity|exact IH].
Qed.

(** Where an index that is new to the object goes: after the indices
    that are not larger, before the first key that is a larger index or
    no index. *)
Lemma insert_index_place (i : N) (k : string) (v : value)
  (props : FormData) :
  exists before after : FormData,
    props = (before ++ after)%list
    /\ insert_index i k v props = (before ++ (k, v) :: after)%list
    /\ Forall (fun p => exists j, array_index (fst p) = Some j
                                  /\ (j <= i)%N) before
    /\ match after with
       | [] => True
       | p :: _ => forall j, array_index (fst p) = Some j -> (i < j)%N
       end.
Proof.
  induction props as [|[k' v'] rest IH]; cbn [insert_index].
  - exists [], []. repeat split. constructor.
  - destruct (array_index k') as [j|] eqn:Hidx.
    + destruct (i <? j)%N eqn:Hlt.
      * exists [], ((k', v') :: rest). repeat split; [constructor|].
        cbn [fst]. intros j' Hj'. rewrite Hidx in Hj'.
        inversion Hj'; subst. now apply N.ltb_lt.
      * destruct IH as (before & after & Hsplit & Hins & Hbefore & Hafter).
        exists ((k', v') :: before), after. cbn [app].
        rewrite Hins, Hsplit. repeat split; [|exact Hafter].
        constructor; [|exact Hbefore]. exists j. cbn [fst].
        split; [exact Hidx|now apply N.ltb_ge].
    + exists [], ((k', v') :: rest). repeat split; [constructor|].
      cbn [fst]. intros j Hj. rewrite Hidx in Hj. discriminate Hj.
Qed.

Lemma set_after_insert (i : N) (k : string) (v v' : value)
  (props : FormData) :
  ~ In k (map fst props) ->
  JsonText.set_prop k v' (insert_index i k v props)
  = insert_index i k v' props.
Proof.
  induction props as [|[k0 v0] rest IH];
    cbn [insert_index map fst In]; intros Hn.
  - cbn [JsonText.set_prop]. now rewrite String.eqb_refl.
  - destruct (array_index k0) as [j|];
      [destruct (i <? j)%N|]; cbn [JsonText.set_prop];
      try (now rewrite String.eqb_refl).
    replace (String.eqb k k0) with false
      by (symmetry; apply String.eqb_neq; intros ->; apply Hn; now left).
    f_equal. apply IH. intros Hin. apply Hn. now right.
Qed.

Lemma has_key_after_insert (i : N) (k : string) (v : value)
  (props : FormData) :
  has_key k (insert_index i k v props) = true.
Proof.
  apply has_key_In.
  destruct (insert_index_place i k v props)
    as (before & after & _ & -> & _).
  rewrite map_app. apply in_or_app. right. now left.
Qed.

Lemma has_key_after_set (k k' : string) (v : value) (props : FormData) :
  has_key k props = true ->
  has_key k (JsonText.set_prop k' v props) = true.
Proof.
  rewrite !has_key_In. intros Hin.
  destruct (in_dec string_dec k' (map fst props)) as [Hk'|Hk'].
  - now rewrite set_present_keys.
  - rewrite set_absent_appends by exact Hk'.
    rewrite map_app. apply in_or_app. now left.
Qed.

(** The four controls are named by no array index. *)
Lemma control_change (name value : string) (form : FormData) :
  In name controls ->
  handleChange name value form = JsonText.set_prop name (Str value) form.
Proof.
  unfold controls. cbn [In].
  intros [<-|[<-|[<-|[<-|[]]]]]; reflexivity.
Qed.

(** A change to a property the object has is a plain replacement. *)
Lemma change_present (name value : string) (prev : FormData) :
  In name (map fst prev) ->
  handleChange name value prev = JsonText.set_prop name (Str value) prev.
Proof.
  intros Hin. apply has_key_In in Hin. unfold handleChange.
  rewrite Hin. now destruct (array_index name).
Qed.

(** The object spread with a computed key in [handleChange]: the changed
    property reads back the new value and every other property reads as
    before; a change to one of the object's own properties keeps the
    properties and their order; an unknown name adds a property, at the
    end if the name is no array index, and otherwise among the indices
    the object lists first, after those that are not larger; of two
    changes to one property the later wins, and changes to two different
    properties of the object can be made in either order. *)
Theorem handleChange_updates_one_property (prev : FormData)
  (name value : string) :
  lookup name (handleChange name value prev) = Str value
  /\ (forall other, other <> name ->
        lookup other (handleChange name value prev) = lookup other prev)
  /\ (In name (map fst prev) ->
        map fst (handleChange name value prev) = map fst prev)
  /\ (~ In name (map fst prev) -> array_index name = None ->
        handleChange name value prev = (prev ++ [(name, Str value)])%list)
  /\ (forall i, ~ In name (map fst prev) -> array_index name = Some i ->
        exists before after : FormData,
          prev = (before ++ after)%list
          /\ handleChange name value prev
             = (before ++ (name, Str value) :: after)%list
          /\ Forall (fun p => exists j, array_index (fst p) = Some j
                                        /\ (j <= i)%N) before
          /\ match after with
             | [] => True
             | p :: _ =>
                 forall j, array_index (fst p) = Some j -> (i < j)%N
             end)
  /\ (forall later,
        handleChange name later (handleChange name value prev)
        = handleChange name later prev)
  /\ (forall name2 value2,
        name2 <> name -> In name (map fst prev) ->
        In name2 (map fst prev) ->
        handleChange name2 value2 (handleChange name value prev)
        = handleChange name value (handleChange name2 value2 prev)).
Proof.
  split; [|split; [|split; [|split; [|split; [|split]]]]].
  - unfold handleChange. destruct (array_index name) as [i|];
      [destruct (has_key name prev) eqn:Hk|];
      try apply lookup_set_same.
    apply lookup_insert_same. now apply has_key_absent.
  - intros other Hne. unfold handleChange.
    destruct (array_index name) as [i|];
      [destruct (has_key name prev)|];
      try (now apply lookup_set_other).
    now apply lookup_insert_other.
  - intros Hin. rewrite change_present by exact Hin.
    now apply set_present_keys.
  - intros Hn Hidx. unfold handleChange. rewrite Hidx.
    now apply set_absent_appends.
  - intros i Hn Hidx. unfold handleChange. rewrite Hidx.
    apply has_key_absent in Hn. rewrite Hn.
    apply insert_index_place.
  - intros later. unfold handleChange.
    destruct (array_index name) as [i|]; [|apply set_twice].
    destruct (has_key name prev) eqn:Hk.
    + rewrite (has_key_after_set name name _ prev Hk). apply set_twice.
    + rewrite has_key_after_insert. apply set_after_insert.
      now apply has_key_absent.
  - intros name2 value2 Hne H1 H2.
    rewrite (change_present name value prev H1).
    rewrite (change_present name2 value2 prev H2).
    rewrite change_present
      by (rewrite set_present_keys; assumption).
    rewrite (change_present name value)
      by (rewrite set_present_keys; assumption).
    now apply set_commutes.
Qed.

(** ** Sessions *)

Lemma session_snoc (actions : list Action) (a : Action) (v : View) :
  run (actions ++ [a]) v = step (run actions v) a.
Proof. unfold run. now rewrite fold_left_app. Qed.

Lemma session_app (before after : list Action) (v : View) :
  run (before ++ after) v = run after (run before v).
Proof. unfold run. now rewrite fold_left_app. Qed.

Lemma handleChange_well_formed (name value : string) (form : FormData) :
  In name controls -> well_formed form ->
  well_formed (handleChange name value form).
Proof.
  intros Hname [Hkeys Hvals]. rewrite (control_change _ _ _ Hname).
  unfold well_formed. split.
  - rewrite set_present_keys; [exact Hkeys|]. now rewrite Hkeys.
  - clear Hkeys. induction Hvals as [|[k' v'] rest Hp Hrest IH];
      cbn [JsonText.set_prop].
    + constructor; [now exists value|constructor].
    + destruct (String.eqb name k').
      * constructor; [now exists value|assumption].
      * constructor; assumption.
Qed.

Lemma empty_form_well_formed : well_formed empty_form.
Proof.
  split; [reflexivity|].
  repeat constructor; now exists ""%string.
Qed.

(** The form depends on the form alone. *)
Lemma run_formData (actions : list Action) (v v' : View) :
  formData v = formData v' ->
  formData (run actions v) = formData (run actions v').
Proof.
  revert v v'. induction actions as [|a rest IH]; intros v v' H;
    [exact H|].
  cbn [run fold_left]. apply IH. destruct a; cbn; now rewrite ?H.
Qed.

(** Whatever is done with the form's four controls, in any order and
    number: the state always has exactly the properties name, email,
    subject and message, in this order, each a string; every request is a
    POST to /api/contact with such an object, one request per submit; and
    there is one toast per settled request, either the fixed success
    toast or a destructive one titled Something went wrong whose
    description is never empty: an error without a message gets the
    fallback text. *)
Theorem form_keeps_its_shape (actions : list Action) :
  Forall from_controls actions ->
  let v := run actions initial in
  well_formed (formData v)
  /\ Forall (fun r => method r = "POST" /\ url r = "/api/contact"
                      /\ well_formed (data r)) (requests v)
  /\ List.length (requests v) = List.length (filter is_submit actions)
  /\ Forall (fun t => truthy (description t) = true
                      /\ (t = sent_toast
                          \/ title t = "Something went wrong"
                             /\ variant t = "destructive")) (toasts v)
  /\ List.length (toasts v) = List.length (filter is_settled actions).
Proof.
  cbv zeta. induction actions as [|a actions IH] using rev_ind; intros H.
  - cbn. split; [apply empty_form_well_formed|]. repeat split; constructor.
  - apply Forall_app in H. destruct H as [Hall Ha].
    inversion Ha as [|? ? Hfrom _]; subst.
    destruct (IH Hall) as (Hform & Hreq & Hnreq & Htoast & Hntoast).
    rewrite session_snoc, !filter_app, !length_app.
    destruct a as [name value| | |message]; cbn [step handleSubmit onSuccess
      onError formData requests toasts filter is_submit is_settled
      List.length].
    + split; [now apply handleChange_well_formed|].
      repeat split; try assumption; lia.
    + split; [exact Hform|].
      split.
      { apply Forall_app. split; [exact Hreq|].
        constructor; [|constructor]. cbn [method url data].
        split; [reflexivity|]. split; [reflexivity|exact Hform]. }
      split; [rewrite length_app; cbn; lia|].
      split; [exact Htoast|lia].
    + split; [apply empty_form_well_formed|].
      split; [exact Hreq|]. split; [lia|].
      split; [|rewrite length_app; cbn; lia].
      apply Forall_app. split; [exact Htoast|].
      constructor; [|constructor]. split; [reflexivity|now left].
    + split; [exact Hform|]. split; [exact Hreq|]. split; [lia|].
      split; [|rewrite length_app; cbn; lia].
      apply Forall_app. split; [exact Htoast|].
      constructor; [|constructor]. cbn [description title variant].
      split; [|right; now split].
      unfold or_else. destruct (truthy message) eqn:Hm;
        [exact Hm|reflexivity].
Qed.

(** At the sample session. *)
Lemma form_keeps_its_shape_witness :
  well_formed (formData (run session initial)).
Proof.
  refine (proj1 (form_keeps_its_shape session _)).
  unfold session, controls. repeat constructor; cbn; tauto.
Defined.

(** Only typing and a success change the form: a submit and a failure
    leave what was typed in place, and after a success the form is what
    the later typing alone makes of the empty form, so that everything
    typed before the success is gone, whether before the submit or while
    the request was out. *)
Theorem success_forgets_what_was_typed (before after : list Action)
  (v : View) :
  formData (run (before ++ Succeeded :: after) v)
  = formData (run after initial)
  /\ (forall message,
        formData (run (before ++ Failed message :: after) v)
        = formData (run (before ++ after) v))
  /\ formData (run (before ++ Submit :: after) v)
     = formData (run (before ++ after) v).
Proof.
  split; [|split; [intros message|]]; rewrite !session_app;
    cbn [run fold_left]; apply run_formData; reflexivity.
Qed.

End ContactFormExtras.
